(** * capture_YT_comments: a shallow embedding and its properties

    The development follows [capture_YT_comments.py]: the retry wrapper
    [fetch_comments_with_retry], the asynchronous fetcher [fetch_comments],
    the fan-out/fan-in of [process_video_batch], the reply path
    [fetch_replies], the store writer [insert_comments_batch] and the batch
    loop of [main].

    Python values are typed after the keys the program reads: a key read with
    [d[k]] is a field, a key read with [d.get(k, default)] is an optional
    field.  Effects (log lines, requests, sleeps, database statements) are
    threaded through an explicit world, and a raised exception is a result of
    its own. *)

From Stdlib Require Import ZArith List String Ascii Bool Lia Arith.
From Stdlib Require Import DecimalString Permutation.
Import ListNotations.

Local Open Scope string_scope.
Local Open Scope list_scope.

(* ================================================================== *)
(** ** Python values used by the program *)
(* ================================================================== *)

(** An instance of a subclass of [Exception]: its class and [str(e)]. *)
Record exn := mkExn { exn_class : string; exn_msg : string }.

Definition TypeError (m : string) : exn := mkExn "TypeError" m.
Definition IndexError (m : string) : exn := mkExn "IndexError" m.
Definition ValueError (m : string) : exn := mkExn "ValueError" m.

Inductive result (A : Type) : Type :=
| Ok (a : A)
| Raise (e : exn).
Arguments Ok {A} a.
Arguments Raise {A} e.

(** [str(n)] for an integer. *)
Definition str_of_Z (z : Z) : string := NilZero.string_of_int (Z.to_int z).

(** An f-string: its literal parts and formatted values, in order. *)
Definition fmt (parts : list string) : string := String.concat "" parts.

(** [needle in hay] for two strings. *)
Fixpoint contains (needle hay : string) : bool :=
  String.prefix needle hay ||
  match hay with
  | EmptyString => false
  | String _ rest => contains needle rest
  end.

(** [len(range(start, stop, step))] for a non-zero step. *)
Definition range_len (start stop step : Z) : Z :=
  if (0 <? step)%Z then
    if (start <? stop)%Z then ((stop - start - 1) / step + 1)%Z else 0%Z
  else
    if (stop <? start)%Z then ((start - stop - 1) / (- step) + 1)%Z else 0%Z.

(** [range(start, stop, step)]; a zero step raises [ValueError]. *)
Definition py_range (start stop step : Z) : result (list Z) :=
  if (step =? 0)%Z then Raise (ValueError "range() arg 3 must not be zero")
  else Ok (map (fun k => (start + Z.of_nat k * step)%Z)
               (seq 0 (Z.to_nat (range_len start stop step)))).

(** [l[i:j]]: negative bounds count from the end, and both are clamped. *)
Definition slice_bound (n k : Z) : Z :=
  if (k <? 0)%Z then Z.max 0 (k + n) else Z.min k n.

Definition py_slice {A : Type} (l : list A) (i j : Z) : list A :=
  let n := Z.of_nat (List.length l) in
  let lo := slice_bound n i in
  let hi := slice_bound n j in
  firstn (Z.to_nat (hi - lo)) (skipn (Z.to_nat lo) l).

(* ================================================================== *)
(** ** Data model *)
(* ================================================================== *)

(** The comment dictionary built by the two fetch paths (twelve keys). *)
Record Comment := mkComment {
  id : string;
  video_id : string;
  reply_count : Z;
  like_count : Z;
  published_at : string;
  author_name : string;
  text : string;
  author_channel_id : option string;
  author_channel_url : option string;
  is_reply : bool;
  is_reply_to : option string;
  is_reply_to_name : option string
}.

(** The tuple bound to the twelve [?] placeholders of the INSERT. *)
Definition row : Type :=
  (string * string * Z * Z * string * string * string
   * option string * option string * bool * option string * option string)%type.

Definition row_of (comment : Comment) : row :=
  (id comment, video_id comment, reply_count comment,
   like_count comment, published_at comment,
   author_name comment, text comment,
   author_channel_id comment, author_channel_url comment,
   is_reply comment, is_reply_to comment, is_reply_to_name comment).

(** First column of a row: the [id]. *)
Definition row_id (r : row) : string :=
  let '(i, _, _, _, _, _, _, _, _, _, _, _) := r in i.

(** The [comments] table: its rows in insertion order. *)
Definition table : Type := list row.

(** *** Raw API records

    The records below are API items of the documented shape: every key the
    program reads with [d[k]] is present and every value has the type the
    program uses it at.  An item that lacks such a key, on which the program
    raises [KeyError], is not a value of these types: the theorems on fetched
    items speak of well-shaped items only. *)

(** [snippet["authorChannelId"]], read with [.get("value")]. *)
Record author_channel := mkAuthorChannel { value : option string }.

(** The [snippet] of a comment resource. *)
Record comment_snippet := mkCommentSnippet {
  likeCount : option Z;
  publishedAt : string;
  authorDisplayName : string;
  textDisplay : string;
  authorChannelId : option author_channel;
  authorChannelUrl : option string
}.

(** An item of the commentThreads listing:
    [item["id"]], [item["snippet"]["topLevelComment"]["snippet"]] and
    [item["snippet"].get("totalReplyCount", 0)]. *)
Record thread_item := mkThreadItem {
  thread_id : string;
  topLevelComment_snippet : comment_snippet;
  totalReplyCount : option Z
}.

(** An item of the comments listing: [item["id"]], [item["snippet"]]. *)
Record reply_item := mkReplyItem {
  reply_id : string;
  reply_snippet : comment_snippet
}.

(** One entry of [error["errors"]]. *)
Record error_detail := mkErrorDetail { reason : option string }.

(** The [error] object of an error payload. *)
Record error_object := mkErrorObject {
  errors : option (list error_detail);
  message : option string
}.

(** A parsed JSON body, with the two top-level keys the fetcher reads. *)
Record json_body := mkBody {
  error : option error_object;
  items : option (list thread_item)
}.

(** What [session.get] yields: the status and the body [response.json()]
    parses. *)
Record response := mkResponse { status : Z; json : json_body }.

(** The body of the replies listing, [request.execute()]. *)
Record replies_body := mkRepliesBody { reply_items : option (list reply_item) }.

(** The constants read from [config.json]. *)
Record config := mkConfig { RETRIES : Z; DELAY : Z; BATCH_SIZE : Z }.

(* ================================================================== *)
(** ** Effects *)
(* ================================================================== *)

Inductive level := INFO | ERROR.

Inductive event :=
| EvGet (video_id : string)          (** [session.get] on commentThreads *)
| EvLog (lvl : level) (msg : string) (** [logging.info], [logging.error] *)
| EvSleep (secs : Z)                 (** [time.sleep] *)
| EvCall (video_id : string)         (** the retry wrapper calls its operation *)
| EvExecuteMany (rows : list row)    (** [cursor.executemany] *)
| EvCommit.                          (** [conn.commit()] *)

(** The world: what happened so far, the committed table, and the table as
    the open connection sees it (committed rows and those of the pending
    transaction). *)
Record world := mkWorld {
  trace : list event;
  durable : table;
  working : table
}.

Definition M (A : Type) : Type := world -> result A * world.

Definition ret {A} (a : A) : M A := fun w => (Ok a, w).

Definition bind {A B} (c : M A) (k : A -> M B) : M B :=
  fun w => match c w with
           | (Ok a, w') => k a w'
           | (Raise e, w') => (Raise e, w')
           end.

Definition raise {A} (e : exn) : M A := fun w => (Raise e, w).

(** [try: c / except Exception as e: h e]. *)
Definition try_except {A} (c : M A) (h : exn -> M A) : M A :=
  fun w => match c w with
           | (Ok a, w') => (Ok a, w')
           | (Raise e, w') => h e w'
           end.

Definition lift {A} (r : result A) : M A := fun w => (r, w).

Declare Scope py_scope.
Delimit Scope py_scope with py.
Notation "x <- c ;; k" := (bind c (fun x => k))
  (at level 61, c at next level, right associativity) : py_scope.
Notation "c ;; k" := (bind c (fun _ => k))
  (at level 61, right associativity) : py_scope.
Local Open Scope py_scope.

Definition emit (e : event) : M unit :=
  fun w => (Ok tt, mkWorld (trace w ++ [e]) (durable w) (working w)).

Definition log (lvl : level) (msg : string) : M unit := emit (EvLog lvl msg).

(** [time.sleep(secs)]; a negative length raises [ValueError]. *)
Definition time_sleep (secs : Z) : M unit :=
  if (secs <? 0)%Z then raise (ValueError "sleep length must be non-negative")
  else emit (EvSleep secs).

(** [for x in xs: body x]. *)
Fixpoint for_each {A} (xs : list A) (body : A -> M unit) : M unit :=
  match xs with
  | [] => ret tt
  | x :: rest => body x ;; for_each rest body
  end.

(* ================================================================== *)
(** ** The retry wrapper *)
(* ================================================================== *)

Section RetryWrapper.

Variable cfg : config.
Variable A : Type.

(** The callee [fetch_comments(video_id)], as the wrapper calls it. *)
Variable fetch_comments_1 : string -> M (list A).

(** One call of the wrapped operation, recorded in the trace. *)
Definition invoke (video_id : string) : M (list A) :=
  emit (EvCall video_id) ;; fetch_comments_1 video_id.

(** The [for attempt in range(RETRIES)] loop; [Some r] is the early
    [return r], [None] is the loop running out. *)
Fixpoint retry_loop (video_id : string) (attempts : list Z)
  : M (option (list A)) :=
  match attempts with
  | [] => ret None
  | attempt :: rest =>
      try_except
        (r <- invoke video_id ;; ret (Some r))
        (fun e =>
           log ERROR (fmt ["Attempt "; str_of_Z (attempt + 1);
                           " failed for video "; video_id; ": "; exn_msg e]) ;;
           time_sleep (DELAY cfg) ;;
           retry_loop video_id rest)
  end.

Definition fetch_comments_with_retry (video_id : string) : M (list A) :=
  attempts <- lift (py_range 0 (RETRIES cfg) 1) ;;
  r <- retry_loop video_id attempts ;;
  match r with
  | Some comments => ret comments
  | None =>
      log ERROR (fmt ["All "; str_of_Z (RETRIES cfg);
                      " attempts failed for video "; video_id]) ;;
      ret []
  end.

End RetryWrapper.

(** The name [fetch_comments] is bound, when the wrapper runs, to the
    two-parameter coroutine function defined after it; a call with the
    single argument [video_id] raises [TypeError]. *)
Definition fetch_comments_missing_argument (A : Type) (video_id : string)
  : M (list A) :=
  raise (TypeError
    "fetch_comments() missing 1 required positional argument: 'video_id'").

(* ================================================================== *)
(** ** The store *)
(* ================================================================== *)

(** Modelled from the spec: the schema of the [comments] table, which is
    created outside this file; [id] is its primary key, the only constraint
    the spec gives.  [INSERT OR IGNORE] then skips a row whose [id] is
    already in the table and appends any other row. *)
Definition insert_or_ignore (r : row) (t : table) : table :=
  if existsb (fun r' => String.eqb (row_id r') (row_id r)) t
  then t else t ++ [r].

(** [executemany]: the statement run for each parameter tuple in turn. *)
Definition executemany (rows : list row) (t : table) : table :=
  fold_left (fun t r => insert_or_ignore r t) rows t.

(** The rows pass through the connection's open transaction. *)
Definition insert_comments_batch (comments : list Comment) : M unit :=
  fun w =>
    let rows := map row_of comments in
    (Ok tt, mkWorld (trace w ++ [EvExecuteMany rows])
                    (durable w)
                    (executemany rows (working w))).

(** [conn.commit()]: the pending transaction becomes durable. *)
Definition conn_commit : M unit :=
  fun w => (Ok tt, mkWorld (trace w ++ [EvCommit]) (working w) (working w)).

(** [with sqlite3.connect(...) as conn: body]: leaving the block commits,
    leaving it by an exception rolls back and re-raises. *)
Definition with_connection {A} (body : M A) : M A :=
  fun w => match body w with
           | (Ok a, w') => (Ok a, mkWorld (trace w') (working w') (working w'))
           | (Raise e, w') =>
               (Raise e, mkWorld (trace w') (durable w') (durable w'))
           end.

(** Number of rows of a table with a given [id]. *)
Definition count_id (i : string) (t : table) : nat :=
  List.length (filter (fun r => String.eqb (row_id r) i) t).

(** The primary-key constraint: no [id] occurs twice. *)
Definition pk_unique (t : table) : Prop := NoDup (map row_id t).

(* ================================================================== *)
(** ** Fetching, fan-out and the batch loop *)
(* ================================================================== *)

(** [d.get(k, default)] on an optional key. *)
Definition get {A} (o : option A) (default : A) : A :=
  match o with Some a => a | None => default end.

(** Truth value of a list. *)
Definition truthy {A} (l : list A) : bool :=
  match l with [] => false | _ :: _ => true end.

Definition remove_at {A} (j : nat) (l : list A) : list A :=
  firstn j l ++ skipn (S j) l.

Fixpoint map_M {A B} (f : A -> M B) (xs : list A) : M (list B) :=
  match xs with
  | [] => ret []
  | x :: rest => y <- f x ;; ys <- map_M f rest ;; ret (y :: ys)
  end.

Section Program.

Variable cfg : config.

(** [html.unescape], of Python's standard library. *)
Variable html_unescape : string -> string.

(** The remote API: the response to a commentThreads request for a video,
    given everything that happened before the request. *)
Variable net : list event -> string -> response.

(** [request.execute()] of the replies listing for a parent comment. *)
Variable comments_list : string -> result replies_body.

(** The event loop's choices: [sched i k] picks, among the tasks of the
    batch starting at index [i] that are still pending after [k]
    completions, the one that completes next (modulo their number). *)
Variable sched : Z -> nat -> nat.

Definition session_get (video_id : string) : M response :=
  fun w => (Ok (net (trace w) video_id),
            mkWorld (trace w ++ [EvGet video_id]) (durable w) (working w)).

(** [error_response.get("error", {}).get("errors", [{}])[0].get("reason", "")] *)
Definition error_reason (error_response : json_body) : result string :=
  match get (errors (get (error error_response) (mkErrorObject None None)))
            [mkErrorDetail None] with
  | [] => Raise (IndexError "list index out of range")
  | first :: _ => Ok (get (reason first) "")
  end.

(** [error_response.get("error", {}).get("message", "")] *)
Definition error_message (error_response : json_body) : string :=
  get (message (get (error error_response) (mkErrorObject None None))) "".

(** The dictionary built for one item of the commentThreads listing. *)
Definition top_level_comment (vid : string) (item : thread_item) : Comment :=
  let snippet := topLevelComment_snippet item in
  {| id := thread_id item;
     video_id := vid;
     reply_count := get (totalReplyCount item) 0%Z;
     like_count := get (likeCount snippet) 0%Z;
     published_at := publishedAt snippet;
     author_name := authorDisplayName snippet;
     text := html_unescape (textDisplay snippet);
     author_channel_id :=
       value (get (authorChannelId snippet) (mkAuthorChannel None));
     author_channel_url := authorChannelUrl snippet;
     is_reply := false;
     is_reply_to := None;
     is_reply_to_name := None |}.

(** The body of [async with session.get(...) as response]. *)
Definition fetch_comments_response (vid : string) (response : response)
  : M (list Comment) :=
  if (status response =? 403)%Z then
    reason <- lift (error_reason (json response)) ;;
    let message := error_message (json response) in
    (if contains "commentsDisabled" reason
        || contains "disabled comments" message
     then log INFO (fmt ["Comments are disabled for video "; vid; "."])
     else log ERROR (fmt ["403 Forbidden for video "; vid;
                          ". Reason: "; reason; ", Message: "; message])) ;;
    ret []
  else if negb (status response =? 200)%Z then
    log ERROR (fmt ["Failed to fetch comments for video "; vid;
                    ": HTTP "; str_of_Z (status response)]) ;;
    ret []
  else
    let data := json response in
    ret (map (top_level_comment vid) (get (items data) [])).

Definition fetch_comments (vid : string) : M (list Comment) :=
  response <- session_get vid ;;
  fetch_comments_response vid response.

(** [asyncio.gather]: the pending tasks complete one at a time, in the
    order the event loop picks; the first exception is propagated. *)
Fixpoint gather (pick : nat -> nat) (fuel k : nat)
         (pending : list (nat * (string * response)))
  : M (list (nat * list Comment)) :=
  match fuel with
  | O => ret []
  | S fuel' =>
      let j := (pick k mod List.length pending)%nat in
      match nth_error pending j with
      | None => ret []
      | Some (i, (vid, response)) =>
          result <- fetch_comments_response vid response ;;
          rest <- gather pick fuel' (S k) (remove_at j pending) ;;
          ret ((i, result) :: rest)
      end
  end.

(** The result of task [i] among the completed ones. *)
Definition result_of (done : list (nat * list Comment)) (i : nat)
  : list Comment :=
  match find (fun p => Nat.eqb (fst p) i) done with
  | Some p => snd p
  | None => []
  end.

(** Every task runs to its first suspension, the request, in the order of
    [video_ids]; [gather] returns the results in that same order. *)
Definition process_video_batch (pick : nat -> nat) (video_ids : list string)
  : M (list Comment) :=
  tasks <- map_M (fun vid => r <- session_get vid ;; ret (vid, r)) video_ids ;;
  let n := List.length tasks in
  done <- gather pick n 0 (combine (seq 0 n) tasks) ;;
  let results := map (result_of done) (seq 0 n) in
  ret (flat_map (fun result => filter (fun _ => truthy result) result)
                results).

(** The dictionary built for one item of the replies listing. *)
Definition reply_comment (parent_id vid : string) (item : reply_item)
  : Comment :=
  let snippet := reply_snippet item in
  {| id := reply_id item;
     video_id := vid;
     reply_count := 0%Z;
     like_count := get (likeCount snippet) 0%Z;
     published_at := publishedAt snippet;
     author_name := authorDisplayName snippet;
     text := html_unescape (textDisplay snippet);
     author_channel_id :=
       value (get (authorChannelId snippet) (mkAuthorChannel None));
     author_channel_url := authorChannelUrl snippet;
     is_reply := true;
     is_reply_to := Some parent_id;
     is_reply_to_name := None |}.

Definition fetch_replies (parent_id vid : string) : M (list Comment) :=
  response <- lift (comments_list parent_id) ;;
  ret (map (reply_comment parent_id vid) (get (reply_items response) [])).

(** [video_ids[i:i + BATCH_SIZE]] *)
Definition batch_at (video_ids : list string) (i : Z) : list string :=
  py_slice video_ids i (i + BATCH_SIZE cfg).

(** The batches the loop of [main] goes through, in order. *)
Definition batches (video_ids : list string) : result (list (list string)) :=
  match py_range 0 (Z.of_nat (List.length video_ids)) (BATCH_SIZE cfg) with
  | Ok starts => Ok (map (batch_at video_ids) starts)
  | Raise e => Raise e
  end.

Definition inserted_msg (comments : list Comment) (i : Z) : string :=
  fmt ["Inserted "; str_of_Z (Z.of_nat (List.length comments));
       " comments for batch "; str_of_Z (i / BATCH_SIZE cfg + 1)].

(** The [if comments:] block. *)
Definition store_batch (comments : list Comment) (i : Z) : M unit :=
  if truthy comments then
    insert_comments_batch comments ;;
    conn_commit ;;
    log INFO (inserted_msg comments i)
  else ret tt.

(** One iteration of the loop over [range(0, len(video_ids), BATCH_SIZE)]. *)
Definition main_iteration (video_ids : list string) (i : Z) : M unit :=
  let batch := batch_at video_ids i in
  comments <- process_video_batch (sched i) batch ;;
  store_batch comments i.

(** [main], from the list of identifiers read from the CSV file on; the
    progress bar around the range has no effect on the run. *)
Definition main (video_ids : list string) : M unit :=
  with_connection
    (starts <- lift (py_range 0 (Z.of_nat (List.length video_ids))
                              (BATCH_SIZE cfg)) ;;
     for_each starts (main_iteration video_ids)) ;;
  log INFO "All comments processed successfully.".

End Program.

(** A small decoder for concrete runs: it replaces the references [&amp;],
    [&lt;] and [&gt;] and copies every other character, which is what
    [html.unescape] does on the sample texts used below. *)
Fixpoint unescape_basic (s : string) : string :=
  match s with
  | EmptyString => EmptyString
  | String "&" (String "a" (String "m" (String "p" (String ";" rest)))) =>
      String "&" (unescape_basic rest)
  | String "&" (String "l" (String "t" (String ";" rest))) =>
      String "<" (unescape_basic rest)
  | String "&" (String "g" (String "t" (String ";" rest))) =>
      String ">" (unescape_basic rest)
  | String c rest => String c (unescape_basic rest)
  end.

(* ================================================================== *)
(** ** Observations on worlds and traces *)
(* ================================================================== *)

(** The world after some more events, the tables untouched. *)
Definition add_events (w : world) (evs : list event) : world :=
  mkWorld (trace w ++ evs) (durable w) (working w).

Definition is_get (vid : string) (e : event) : bool :=
  match e with EvGet v => String.eqb v vid | _ => false end.

Definition is_call (e : event) : bool :=
  match e with EvCall _ => true | _ => false end.

Definition is_sleep (e : event) : bool :=
  match e with EvSleep _ => true | _ => false end.

Definition is_error_log (e : event) : bool :=
  match e with EvLog ERROR _ => true | _ => false end.

(** Requests issued for a video. *)
Definition count_get (vid : string) (tr : list event) : nat :=
  List.length (filter (is_get vid) tr).

Definition count_calls (tr : list event) : nat :=
  List.length (filter is_call tr).

Definition count_sleeps (tr : list event) : nat :=
  List.length (filter is_sleep tr).

(** Every sleep of the trace is followed by a later call of the wrapped
    operation: sleeps occur between attempts only. *)
Fixpoint sleeps_only_between (tr : list event) : bool :=
  match tr with
  | [] => true
  | EvSleep _ :: rest => existsb is_call rest && sleeps_only_between rest
  | _ :: rest => sleeps_only_between rest
  end.

(** What the wrapper leaves in the trace for attempts that all fail with
    the exceptions [es], the first of them carrying [ordinal]. *)
Fixpoint failed_attempts (cfg : config) (vid : string) (ordinal : Z)
         (es : list exn) : list event :=
  match es with
  | [] => []
  | e :: es' =>
      [EvCall vid;
       EvLog ERROR (fmt ["Attempt "; str_of_Z ordinal;
                         " failed for video "; vid; ": "; exn_msg e]);
       EvSleep (DELAY cfg)]
      ++ failed_attempts cfg vid (ordinal + 1) es'
  end.

(** The 403 payload indicates disabled comments, as the fetcher tests it. *)
Definition indicates_disabled (reason message : string) : bool :=
  contains "commentsDisabled" reason || contains "disabled comments" message.

(** The log line of a failed fetch: an HTTP 403 that does not indicate
    disabled comments, or a status other than 200 and 403. *)
Definition failure_line (vid : string) (r : response) (reason : string)
  : event :=
  if (status r =? 403)%Z then
    EvLog ERROR (fmt ["403 Forbidden for video "; vid; ". Reason: "; reason;
                      ", Message: "; error_message (json r)])
  else
    EvLog ERROR (fmt ["Failed to fetch comments for video "; vid;
                      ": HTTP "; str_of_Z (status r)]).

(** A response of the kind C1 is about: not a 200, and when a 403, one whose
    payload yields a reason and does not indicate disabled comments. *)
Definition failed_response (r : response) : bool :=
  if (status r =? 403)%Z then
    match error_reason (json r) with
    | Ok reason => negb (indicates_disabled reason (error_message (json r)))
    | Raise _ => false
    end
  else negb (status r =? 200)%Z.

(** What the body of the fetcher returns for a response, and what it logs. *)
Definition response_value (html_unescape : string -> string)
           (vid : string) (r : response) : result (list Comment) :=
  if (status r =? 403)%Z then
    match error_reason (json r) with
    | Ok _ => Ok []
    | Raise e => Raise e
    end
  else if negb (status r =? 200)%Z then Ok []
  else Ok (map (top_level_comment html_unescape vid) (get (items (json r)) [])).

Definition response_events (vid : string) (r : response) : list event :=
  if (status r =? 403)%Z then
    match error_reason (json r) with
    | Ok reason =>
        if indicates_disabled reason (error_message (json r))
        then [EvLog INFO (fmt ["Comments are disabled for video "; vid; "."])]
        else [failure_line vid r reason]
    | Raise _ => []
    end
  else if negb (status r =? 200)%Z then [failure_line vid r ""]
  else [].

(** The requests of a batch: each identifier with the response to its
    request, the requests being issued in order from the trace [tr]. *)
Fixpoint requests (net : list event -> string -> response)
         (tr : list event) (video_ids : list string)
  : list (string * response) :=
  match video_ids with
  | [] => []
  | vid :: rest => (vid, net tr vid) :: requests net (tr ++ [EvGet vid]) rest
  end.

(** The lists returned by all fetches, when none of them raises. *)
Fixpoint all_ok {A} (rs : list (result A)) : option (list A) :=
  match rs with
  | [] => Some []
  | Ok a :: rest =>
      match all_ok rest with Some l => Some (a :: l) | None => None end
  | Raise _ :: _ => None
  end.

(** The invariant linking [is_reply_to] and [is_reply]. *)
Definition reply_link_ok (c : Comment) : Prop :=
  is_reply_to c = None <-> is_reply c = false.

(** Events of the store writer: the multi-row statement, the commit, and the
    batch-completion log line. *)
Definition is_store_event (e : event) : bool :=
  match e with
  | EvExecuteMany _ | EvCommit => true
  | EvLog INFO msg => String.prefix "Inserted " msg
  | _ => false
  end.

(** Sample responses. *)
Definition forbidden : response :=
  mkResponse 403
    (mkBody (Some (mkErrorObject (Some [mkErrorDetail (Some "quotaExceeded")])
                                 (Some "Quota exceeded.")))
            None).

Definition disabled : response :=
  mkResponse 403
    (mkBody (Some (mkErrorObject
                     (Some [mkErrorDetail (Some "commentsDisabled")])
                     (Some "The video has disabled comments.")))
            None).

Definition sample_snippet (raw_text : string) : comment_snippet :=
  mkCommentSnippet (Some 3%Z) "2024-01-01T00:00:00Z" "alice" raw_text
                   None None.

Definition one_comment : response :=
  mkResponse 200
    (mkBody None
            (Some [mkThreadItem "c1" (sample_snippet "a &amp; b") (Some 1%Z)])).

(** The list a fetch contributes to the aggregate. *)
Definition value_or_empty {A} (r : result (list A)) : list A :=
  match r with Ok l => l | Raise _ => [] end.

Definition is_ok {A} (r : result A) : bool :=
  match r with Ok _ => true | Raise _ => false end.

(** What the task [t] of a batch returns and logs when it completes. *)
Definition task_value (html_unescape : string -> string)
           (t : nat * (string * response)) : result (list Comment) :=
  response_value html_unescape (fst (snd t)) (snd (snd t)).

Definition task_events (t : nat * (string * response)) : list event :=
  response_events (fst (snd t)) (snd (snd t)).

(** The identifiers requested in a trace, in the order of the requests. *)
Fixpoint requested (tr : list event) : list string :=
  match tr with
  | [] => []
  | EvGet vid :: rest => vid :: requested rest
  | _ :: rest => requested rest
  end.

Definition is_log (e : event) : bool :=
  match e with EvLog _ _ => true | _ => false end.

(** The row of a table with a given [id], if any. *)
Definition find_id (i : string) (t : table) : option row :=
  find (fun r => String.eqb (row_id r) i) t.

(** A 403 payload whose [errors] list is present and empty. *)
Definition empty_errors (r : response) : Prop :=
  status r = 403%Z /\
  exists o, error (json r) = Some o /\ errors o = Some [].

(** What [main] keeps true of the store, from the world [start] it began in:
    no pending transaction, unique ids, the rows of before untouched, and
    every row added since is the tuple of a top-level comment fetched for one
    of [video_ids]. *)
Definition store_inv (video_ids : list string) (start w : world) : Prop :=
  working w = durable w /\
  pk_unique (durable w) /\
  exists added,
    durable w = durable start ++ added /\
    Forall (fun r => exists c, r = row_of c /\ is_reply c = false /\
                               In (video_id c) video_ids) added.

(** An operation that fails while the trace holds at most [k] calls of it,
    and returns [result] afterwards. *)
Definition flaky (k : nat) (result : list Comment) (vid : string)
  : M (list Comment) :=
  fun w =>
    if (count_calls (trace w) <=? k)%nat
    then (Raise (mkExn "ClientError" "connection reset"), w)
    else (Ok result, w).

Definition malformed : response :=
  mkResponse 403
    (mkBody (Some (mkErrorObject (Some []) (Some "disabled comments"))) None).

(** The tuples of all comments fetched for [video_ids], in order, when the
    answer of the API to a video is [answer]. *)
Definition fetched_rows (html_unescape : string -> string)
           (answer : string -> response) (video_ids : list string)
  : list row :=
  map row_of
      (flat_map (fun vid => value_or_empty
                              (response_value html_unescape vid (answer vid)))
                video_ids).

(** [failed_run cfg op vid ordinal n w w']: starting in [w], the wrapper
    made [n] attempts on [op] that all failed, the first of them numbered
    [ordinal].  Each attempt is the call of the operation, which raises some
    [e] in the world [w1] it left, whatever it did before; then the error
    line with the ordinal of the attempt and [str(e)]; then the sleep of
    [DELAY].  [w'] is the world after the last sleep. *)
Inductive failed_run (cfg : config) {A : Type} (op : string -> M (list A))
          (vid : string) : Z -> nat -> world -> world -> Prop :=
| failed_none ordinal w :
    failed_run cfg op vid ordinal 0 w w
| failed_next ordinal n w e w1 w' :
    op vid (add_events w [EvCall vid]) = (Raise e, w1) ->
    failed_run cfg op vid (ordinal + 1) n
      (add_events w1
         [EvLog ERROR (fmt ["Attempt "; str_of_Z ordinal;
                            " failed for video "; vid; ": "; exn_msg e]);
          EvSleep (DELAY cfg)])
      w' ->
    failed_run cfg op vid ordinal (S n) w w'.

(** An operation that issues its request and then fails, at every call. *)
Definition request_then_fail (vid : string) : M (list Comment) :=
  fun w => (Raise (mkExn "ClientError" "connection reset"),
            add_events w [EvGet vid]).

(** An operation that issues its request at every call, fails while the
    trace holds at most [k] calls of it and returns [result] afterwards. *)
Definition request_then_flaky (k : nat) (result : list Comment) (vid : string)
  : M (list Comment) :=
  fun w =>
    if (count_calls (trace w) <=? k)%nat
    then (Raise (mkExn "ClientError" "connection reset"),
          add_events w [EvGet vid])
    else (Ok result, add_events w [EvGet vid]).

(** The empty world: nothing happened, an empty table. *)
Definition w0 : world := mkWorld [] [] [].

(* ================================================================== *)
(** ** The monad and the world *)
(* ================================================================== *)

Lemma add_events_nil w : add_events w [] = w.
Proof. destruct w; unfold add_events; simpl. now rewrite app_nil_r. Qed.

Lemma add_events_app w a b :
  add_events (add_events w a) b = add_events w (a ++ b).
Proof. unfold add_events; simpl. now rewrite app_assoc. Qed.

Lemma emit_eq e w : emit e w = (Ok tt, add_events w [e]).
Proof. reflexivity. Qed.

Lemma log_eq lvl msg w : log lvl msg w = (Ok tt, add_events w [EvLog lvl msg]).
Proof. reflexivity. Qed.

Lemma time_sleep_eq secs w :
  (0 <= secs)%Z -> time_sleep secs w = (Ok tt, add_events w [EvSleep secs]).
Proof.
  intros H. unfold time_sleep.
  destruct (Z.ltb_spec secs 0); [lia | reflexivity].
Qed.

(* ================================================================== *)
(** ** The retry wrapper *)
(* ================================================================== *)

Lemma py_range_unit (n : Z) :
  (0 <= n)%Z -> py_range 0 n 1 = Ok (map Z.of_nat (seq 0 (Z.to_nat n))).
Proof.
  intros Hn. unfold py_range, range_len. simpl.
  destruct (Z.ltb_spec 0 n).
  - rewrite Z.div_1_r. replace (n - 0 - 1 + 1)%Z with n by lia.
    f_equal. apply map_ext. intros k. lia.
  - replace n with 0%Z by lia. reflexivity.
Qed.

Lemma retry_loop_after_failures (cfg : config) (A : Type)
      (op : string -> M (list A)) (vid : string) :
  (0 <= DELAY cfg)%Z ->
  forall (k s : nat) (w wk : world),
    failed_run cfg op vid (Z.of_nat s + 1) k w wk ->
    forall m,
      retry_loop cfg A op vid (map Z.of_nat (seq s (k + m))) w
      = retry_loop cfg A op vid (map Z.of_nat (seq (s + k) m)) wk.
Proof.
  intros Hd k. induction k as [|k IH]; intros s w wk Hrun m.
  - inversion Hrun; subst. now rewrite Nat.add_0_r.
  - inversion Hrun as [|? ? ? e w1 ? Hop Hrest]; subst.
    cbn [Nat.add seq map retry_loop].
    unfold try_except, invoke, bind at 1 2. rewrite emit_eq, Hop.
    unfold bind. rewrite log_eq, time_sleep_eq by exact Hd.
    rewrite add_events_app. cbn [app].
    replace (Z.of_nat s + 1 + 1)%Z with (Z.of_nat (S s) + 1)%Z in Hrest by lia.
    rewrite (IH (S s) _ wk Hrest m).
    now replace (S s + k)%nat with (s + S k)%nat by lia.
Qed.

Lemma failed_run_exists (cfg : config) (A : Type)
      (op : string -> M (list A)) (vid : string) :
  (forall w1, exists e w2, op vid w1 = (Raise e, w2)) ->
  forall (n : nat) (ordinal : Z) (w : world),
    exists w', failed_run cfg op vid ordinal n w w'.
Proof.
  intros Hop n. induction n as [|n IH]; intros ordinal w.
  - exists w. constructor.
  - destruct (Hop (add_events w [EvCall vid])) as [e [w1 He]].
    destruct (IH (ordinal + 1)%Z
                (add_events w1
                   [EvLog ERROR (fmt ["Attempt "; str_of_Z ordinal;
                                      " failed for video "; vid; ": ";
                                      exn_msg e]);
                    EvSleep (DELAY cfg)])) as [w' Hrun].
    exists w'. eapply failed_next; eauto.
Qed.

(* ================================================================== *)
(** ** The fetcher *)
(* ================================================================== *)

Section FetchFacts.

Variable html_unescape : string -> string.
Variable net : list event -> string -> response.

Lemma fetch_comments_response_eq vid r w :
  fetch_comments_response html_unescape vid r w
  = (response_value html_unescape vid r,
     add_events w (response_events vid r)).
Proof.
  unfold fetch_comments_response, response_value, response_events,
    indicates_disabled, failure_line.
  destruct (status r =? 403)%Z eqn:E403.
  - unfold bind at 1, lift.
    destruct (error_reason (json r)) as [reason|e].
    + unfold bind, ret.
      destruct (contains "commentsDisabled" reason
                || contains "disabled comments" (error_message (json r)));
        rewrite log_eq; reflexivity.
    + now rewrite add_events_nil.
  - destruct (negb (status r =? 200)%Z).
    + unfold bind, ret. rewrite log_eq. reflexivity.
    + unfold ret. now rewrite add_events_nil.
Qed.

Lemma fetch_comments_eq vid w :
  fetch_comments html_unescape net vid w
  = (response_value html_unescape vid (net (trace w) vid),
     add_events w (EvGet vid :: response_events vid (net (trace w) vid))).
Proof.
  unfold fetch_comments, bind, session_get.
  rewrite fetch_comments_response_eq. unfold add_events; simpl.
  now rewrite <- app_assoc.
Qed.

Lemma issue_requests_eq video_ids w :
  map_M (fun vid => r <- session_get net vid ;; ret (vid, r)) video_ids w
  = (Ok (requests net (trace w) video_ids),
     add_events w (map EvGet video_ids)).
Proof.
  revert w. induction video_ids as [|vid rest IH]; intros w.
  - simpl. unfold ret. now rewrite add_events_nil.
  - cbn [map_M requests map]. unfold bind at 1 2, session_get, ret.
    unfold bind at 1. rewrite IH. simpl.
    unfold add_events; simpl. now rewrite <- app_assoc.
Qed.

Lemma requests_length tr video_ids :
  List.length (requests net tr video_ids) = List.length video_ids.
Proof.
  revert tr. induction video_ids; intros tr; simpl; [|rewrite IHvideo_ids];
    reflexivity.
Qed.

Lemma requests_ids tr video_ids :
  map fst (requests net tr video_ids) = video_ids.
Proof.
  revert tr. induction video_ids; intros tr; simpl; [|rewrite IHvideo_ids];
    reflexivity.
Qed.

(** Every comment of a fetch carries the identifier it was fetched for and
    is a top-level comment. *)
Lemma response_value_comments vid r l :
  response_value html_unescape vid r = Ok l ->
  Forall (fun c => video_id c = vid /\ is_reply c = false
                   /\ is_reply_to c = None) l.
Proof.
  unfold response_value.
  destruct (status r =? 403)%Z.
  - destruct (error_reason (json r)); intros H; inversion H. constructor.
  - destruct (negb (status r =? 200)%Z); intros H; inversion H.
    + constructor.
    + apply Forall_forall. intros c Hc. apply in_map_iff in Hc.
      destruct Hc as [item [<- _]]. simpl. auto.
Qed.

End FetchFacts.

(* ================================================================== *)
(** ** The fan-out and fan-in *)
(* ================================================================== *)

Lemma remove_at_perm {A} (l : list A) (j : nat) (x : A) :
  nth_error l j = Some x ->
  Permutation l (x :: remove_at j l) /\
  S (List.length (remove_at j l)) = List.length l.
Proof.
  intros H. destruct (nth_error_split l j H) as [l1 [l2 [-> Hlen]]].
  unfold remove_at.
  assert (Hf : firstn j (l1 ++ x :: l2) = l1).
  { rewrite <- Hlen. rewrite firstn_app, Nat.sub_diag, firstn_all. simpl.
    now rewrite app_nil_r. }
  assert (Hs : skipn (S j) (l1 ++ x :: l2) = l2).
  { rewrite <- Hlen. rewrite skipn_app.
    replace (S (List.length l1) - List.length l1)%nat with 1%nat by lia.
    rewrite skipn_all2 by lia. reflexivity. }
  rewrite Hf, Hs. split.
  - symmetry. apply Permutation_middle.
  - rewrite !length_app. simpl. lia.
Qed.

Lemma filter_truthy {A} (l : list A) : filter (fun _ => truthy l) l = l.
Proof.
  destruct l as [|x l]; [reflexivity|].
  change (truthy (x :: l)) with true.
  induction (x :: l) as [|y l' IH]; simpl; [|rewrite IH]; reflexivity.
Qed.

Lemma flatten_results {A} (results : list (list A)) :
  flat_map (fun result => filter (fun _ => truthy result) result) results
  = List.concat results.
Proof.
  induction results as [|r rest IH]; simpl; [reflexivity|].
  now rewrite filter_truthy, IH.
Qed.

Lemma combine_fst {A B} (a : list A) (b : list B) :
  List.length a = List.length b -> map fst (combine a b) = a.
Proof.
  revert b. induction a as [|x a IH]; intros [|y b] H; simpl in *;
    try discriminate; [reflexivity|]. f_equal. apply IH. lia.
Qed.

Lemma combine_snd {A B} (a : list A) (b : list B) :
  List.length a = List.length b -> map snd (combine a b) = b.
Proof.
  revert b. induction a as [|x a IH]; intros [|y b] H; simpl in *;
    try discriminate; [reflexivity|]. f_equal. apply IH. lia.
Qed.

Section GatherFacts.

Variable html_unescape : string -> string.
Variable net : list event -> string -> response.
Variable pick : nat -> nat.


Lemma picked_task (pending : list (nat * (string * response))) (k fuel : nat) :
  List.length pending = S fuel ->
  exists t,
    nth_error pending (pick k mod List.length pending) = Some t.
Proof.
  intros Hlen.
  destruct (nth_error pending (pick k mod List.length pending)) as [t|] eqn:E.
  - now exists t.
  - apply nth_error_None in E.
    pose proof (Nat.mod_upper_bound (pick k) (List.length pending)). lia.
Qed.

Lemma gather_step fuel k (pending : list (nat * (string * response))) w i vid r :
  nth_error pending (pick k mod List.length pending) = Some (i, (vid, r)) ->
  gather html_unescape pick (S fuel) k pending w
  = match response_value html_unescape vid r with
    | Ok l =>
        match gather html_unescape pick fuel (S k)
                     (remove_at (pick k mod List.length pending) pending)
                     (add_events w (response_events vid r)) with
        | (Ok rest, w') => (Ok ((i, l) :: rest), w')
        | (Raise e, w') => (Raise e, w')
        end
    | Raise e => (Raise e, add_events w (response_events vid r))
    end.
Proof.
  intros Ht. cbn [gather]. rewrite Ht.
  unfold bind at 1. rewrite fetch_comments_response_eq.
  destruct (response_value html_unescape vid r); [|reflexivity].
  unfold bind at 1.
  destruct (gather html_unescape pick fuel (S k) _ _) as [[rest|e] w'];
    reflexivity.
Qed.

Lemma gather_ok fuel : forall k (pending : list (nat * (string * response))) w,
  List.length pending = fuel ->
  Forall (fun t => is_ok (task_value html_unescape t) = true) pending ->
  exists done evs,
    gather html_unescape pick fuel k pending w = (Ok done, add_events w evs) /\
    Permutation done (map (fun t => (fst t, value_or_empty (task_value html_unescape t))) pending) /\
    Permutation evs (flat_map task_events pending).
Proof.
  induction fuel as [|fuel IH]; intros k pending w Hlen Hall.
  - destruct pending; [|discriminate].
    exists [], []. simpl. unfold ret. rewrite add_events_nil. auto.
  - destruct (picked_task pending k fuel Hlen) as [t Ht].
    destruct (remove_at_perm _ _ _ Ht) as [Hperm Hrem].
    assert (Hall' : Forall (fun t => is_ok (task_value html_unescape t) = true)
                           (t :: remove_at (pick k mod List.length pending) pending))
      by (eapply Permutation_Forall; eauto).
    inversion Hall' as [|? ? Hok Hrest]; subst.
    destruct (IH (S k) (remove_at (pick k mod List.length pending) pending)
                 (add_events w (task_events t)) ltac:(lia) Hrest)
      as [done [evs [Hrun [Hdone Hevs]]]].
    destruct t as [i [vid r]].
    unfold task_value in Hok. simpl in Hok. unfold task_events in Hrun. simpl in Hrun.
    destruct (response_value html_unescape vid r) as [l|e] eqn:Ev;
      [|discriminate].
    exists ((i, l) :: done), (response_events vid r ++ evs).
    split; [|split].
    + rewrite (gather_step _ _ _ _ _ _ _ Ht), Ev, Hrun.
      now rewrite add_events_app.
    + rewrite Hperm. cbn [map]. unfold task_value at 1. simpl. rewrite Ev. simpl.
      now constructor.
    + rewrite Hperm. cbn [flat_map]. unfold task_events at 1. simpl.
      now apply Permutation_app_head.
Qed.

Lemma gather_raise fuel : forall k (pending : list (nat * (string * response))) w,
  List.length pending = fuel ->
  Exists (fun t => is_ok (task_value html_unescape t) = false) pending ->
  exists e evs,
    gather html_unescape pick fuel k pending w = (Raise e, add_events w evs).
Proof.
  induction fuel as [|fuel IH]; intros k pending w Hlen Hex.
  - destruct pending; [inversion Hex|discriminate].
  - destruct (picked_task pending k fuel Hlen) as [t Ht].
    destruct (remove_at_perm _ _ _ Ht) as [Hperm Hrem].
    destruct t as [i [vid r]].
    pose proof (gather_step fuel _ _ w _ _ _ Ht) as Hstep.
    destruct (response_value html_unescape vid r) as [l|e] eqn:Ev.
    + assert (Hex' : Exists (fun t => is_ok (task_value html_unescape t) = false)
                       ((i, (vid, r))
                        :: remove_at (pick k mod List.length pending) pending)).
      { apply Exists_exists. apply Exists_exists in Hex.
        destruct Hex as [x [Hin Hx]]. exists x. split; [|exact Hx].
        eapply Permutation_in; eauto. }
      inversion Hex' as [? ? Hbad|? ? Hbad]; subst.
      * unfold task_value in Hbad. simpl in Hbad. rewrite Ev in Hbad. discriminate.
      * destruct (IH (S k)
                     (remove_at (pick k mod List.length pending) pending)
                     (add_events w (response_events vid r))
                     ltac:(lia) Hbad) as [e [evs Hrun]].
        rewrite Hrun, add_events_app in Hstep.
        now exists e, (response_events vid r ++ evs).
    + now exists e, (response_events vid r).
Qed.

Lemma result_of_found (done : list (nat * list Comment)) i l :
  NoDup (map fst done) -> In (i, l) done -> result_of done i = l.
Proof.
  unfold result_of. induction done as [|[i' l'] done IH]; intros Hnd Hin.
  - inversion Hin.
  - simpl. inversion Hnd as [|? ? Hnotin Hnd']; subst.
    destruct (Nat.eqb_spec i' i) as [->|Hne].
    + simpl. destruct Hin as [Heq|Hin]; [now inversion Heq|].
      exfalso. apply Hnotin. change i with (fst (i, l)). now apply in_map.
    + destruct Hin as [Heq|Hin]; [inversion Heq; contradiction|].
      now apply IH.
Qed.

Lemma results_in_order (done L : list (nat * list Comment)) :
  NoDup (map fst L) -> Permutation done L ->
  map (result_of done) (map fst L) = map snd L.
Proof.
  intros Hnd Hperm. rewrite map_map. apply map_ext_in. intros [i l] Hin.
  simpl. apply result_of_found.
  - eapply Permutation_NoDup; [|exact Hnd].
    apply Permutation_map. now symmetry.
  - eapply Permutation_in; [symmetry; exact Hperm|exact Hin].
Qed.

(** When no fetch of the batch raises, the aggregate is the concatenation
    of the fetched lists in the order of [video_ids]; the log lines come in
    completion order, after the requests. *)
Lemma process_video_batch_ok video_ids w :
  let tasks := requests net (trace w) video_ids in
  Forall (fun t => is_ok (response_value html_unescape (fst t) (snd t)) = true)
         tasks ->
  exists evs,
    process_video_batch html_unescape net pick video_ids w
    = (Ok (flat_map
             (fun t => value_or_empty
                         (response_value html_unescape (fst t) (snd t)))
             tasks),
       add_events w (map EvGet video_ids ++ evs)) /\
    Permutation evs
      (flat_map (fun t => response_events (fst t) (snd t)) tasks).
Proof.
  intros tasks Hall.
  set (n := List.length tasks).
  assert (Hn : List.length (seq 0 n) = List.length tasks)
    by (now rewrite length_seq).
  destruct (gather_ok n 0 (combine (seq 0 n) tasks)
              (add_events w (map EvGet video_ids)))
    as [done [evs [Hrun [Hdone Hevs]]]].
  - rewrite length_combine, length_seq. subst n. lia.
  - apply Forall_forall. intros [i t] Hin. apply in_combine_r in Hin.
    rewrite Forall_forall in Hall. unfold task_value. simpl. now apply Hall.
  - exists evs. split.
    + unfold process_video_batch, bind at 1. rewrite issue_requests_eq.
      fold tasks. fold n. unfold bind at 1. rewrite Hrun.
      unfold ret. rewrite add_events_app. f_equal. f_equal.
      rewrite flatten_results.
      set (L := map (fun t : nat * (string * response) => (fst t, value_or_empty (task_value html_unescape t)))
                    (combine (seq 0 n) tasks)) in *.
      assert (HfL : map fst L = seq 0 n).
      { subst L. rewrite map_map. simpl.
        change (map (fun x : nat * (string * response) => fst x) (combine (seq 0 n) tasks))
          with (map fst (combine (seq 0 n) tasks)).
        now apply combine_fst. }
      rewrite <- HfL.
      rewrite (results_in_order done L); [| rewrite HfL; apply seq_NoDup | exact Hdone].
      subst L. rewrite map_map. simpl. rewrite flat_map_concat_map.
      f_equal.
      rewrite <- (combine_snd (seq 0 n) tasks Hn) at 2.
      rewrite map_map. reflexivity.
    + rewrite Hevs.
      rewrite <- (combine_snd (seq 0 n) tasks Hn) at 2.
      rewrite !flat_map_concat_map, map_map. reflexivity.
Qed.

Lemma process_video_batch_raise video_ids w :
  let tasks := requests net (trace w) video_ids in
  Exists (fun t => is_ok (response_value html_unescape (fst t) (snd t)) = false)
         tasks ->
  exists e evs,
    process_video_batch html_unescape net pick video_ids w
    = (Raise e, add_events w (map EvGet video_ids ++ evs)).
Proof.
  intros tasks Hex.
  set (n := List.length tasks).
  assert (Hn : List.length (seq 0 n) = List.length tasks)
    by (now rewrite length_seq).
  destruct (gather_raise n 0 (combine (seq 0 n) tasks)
              (add_events w (map EvGet video_ids)))
    as [e [evs Hrun]].
  - rewrite length_combine, length_seq. subst n. lia.
  - rewrite <- (combine_snd (seq 0 n) tasks Hn) in Hex.
    apply Exists_exists in Hex. destruct Hex as [t [Hin Ht]].
    apply in_map_iff in Hin. destruct Hin as [it [<- Hin]].
    apply Exists_exists. exists it. split; [exact Hin|].
    unfold task_value. exact Ht.
  - exists e, evs.
    unfold process_video_batch, bind at 1. rewrite issue_requests_eq.
    fold tasks. fold n. unfold bind at 1. rewrite Hrun.
    now rewrite add_events_app.
Qed.

End GatherFacts.

(** C3, as stated, fails: with [RETRIES = 2] and an operation that raises at
    every call, the wrapper sleeps twice, once after each failed attempt; the
    second sleep comes after the last attempt and is followed by no call. *)
Lemma retry_sleeps_after_last_attempt :
  let w := snd (fetch_comments_with_retry (mkConfig 2 5 10) Comment
                  (fetch_comments_missing_argument Comment) "v1" w0) in
  count_calls (trace w) = 2%nat /\
  count_sleeps (trace w) = 2%nat /\
  sleeps_only_between (trace w) = false.
Proof. vm_compute. repeat split. Qed.

(** C3, amended: for every operation that raises an exception at each
    invocation, whatever it did before raising, and non-negative [RETRIES]
    and [DELAY], the retry wrapper invokes it exactly [RETRIES] times; every
    failed attempt, the last one included, is followed by its error log
    line, which carries the attempt's ordinal number and the error the
    operation raised, and then by a sleep of [DELAY]; one final exhaustion
    message is logged, and the wrapper returns the empty list instead of
    propagating the exception. *)
Theorem retry_wrapper_exhaustion
        (cfg : config) (A : Type) (op : string -> M (list A))
        (vid : string) (w : world) :
  (0 <= RETRIES cfg)%Z ->
  (0 <= DELAY cfg)%Z ->
  (forall w1, exists e w2, op vid w1 = (Raise e, w2)) ->
  exists w',
    failed_run cfg op vid 1 (Z.to_nat (RETRIES cfg)) w w' /\
    fetch_comments_with_retry cfg A op vid w
    = (Ok [],
       add_events w'
         [EvLog ERROR (fmt ["All "; str_of_Z (RETRIES cfg);
                            " attempts failed for video "; vid])]).
Proof.
  intros Hr Hd Hop.
  destruct (failed_run_exists cfg A op vid Hop (Z.to_nat (RETRIES cfg)) 1 w)
    as [w' Hrun].
  exists w'. split; [exact Hrun|].
  unfold fetch_comments_with_retry, bind at 1, lift.
  rewrite py_range_unit by exact Hr.
  unfold bind at 1.
  pose proof (retry_loop_after_failures cfg A op vid Hd
                (Z.to_nat (RETRIES cfg)) 0 w w' Hrun 0) as Hloop.
  rewrite Nat.add_0_r in Hloop. rewrite Hloop. simpl.
  unfold bind, ret. rewrite log_eq. reflexivity.
Qed.

Lemma retry_wrapper_exhaustion_witness :
  exists w',
    failed_run (mkConfig 2 5 10) request_then_fail "v1" 1 2 w0 w' /\
    fetch_comments_with_retry (mkConfig 2 5 10) Comment request_then_fail
                              "v1" w0
    = (Ok [],
       add_events w'
         [EvLog ERROR (fmt ["All "; str_of_Z 2;
                            " attempts failed for video "; "v1"])]).
Proof.
  apply (retry_wrapper_exhaustion (mkConfig 2 5 10) Comment request_then_fail
           "v1" w0).
  - simpl; lia.
  - simpl; lia.
  - intros w1. eexists. eexists. reflexivity.
Defined.

(* ================================================================== *)
(** ** Failed and disabled fetches *)
(* ================================================================== *)

Lemma failed_response_outcome html_unescape vid r :
  failed_response r = true ->
  response_value html_unescape vid r = Ok [] /\
  exists line, response_events vid r = [line] /\ is_error_log line = true.
Proof.
  unfold failed_response, response_value, response_events, failure_line.
  destruct (status r =? 403)%Z eqn:E403.
  - destruct (error_reason (json r)) as [reason|e]; [|discriminate].
    intros H. apply negb_true_iff in H. rewrite H. split; [reflexivity|].
    eexists. split; reflexivity.
  - intros H. rewrite H. split; [reflexivity|].
    eexists. split; reflexivity.
Qed.

Lemma disabled_response_outcome html_unescape vid r reason :
  status r = 403%Z ->
  error_reason (json r) = Ok reason ->
  indicates_disabled reason (error_message (json r)) = true ->
  response_value html_unescape vid r = Ok [] /\
  response_events vid r
  = [EvLog INFO (fmt ["Comments are disabled for video "; vid; "."])].
Proof.
  intros Hs Hr Hd. unfold response_value, response_events.
  rewrite Hs. simpl. rewrite Hr, Hd. split; reflexivity.
Qed.

(** A payload whose [errors] list is present and empty has no first entry:
    the fetcher raises [IndexError] before it classifies the response. *)
Lemma empty_errors_list_raises html_unescape vid msg w :
  fetch_comments_response html_unescape vid
    (mkResponse 403 (mkBody (Some (mkErrorObject (Some []) msg)) None)) w
  = (Raise (IndexError "list index out of range"), w).
Proof. reflexivity. Qed.

(** C1, as stated, fails: with [RETRIES = 3], a video whose request is
    answered by a 403 that does not indicate disabled comments is requested
    once in the whole run, and the run never sleeps. *)
Lemma forbidden_video_is_requested_once :
  let cfg := mkConfig 3 5 1 in
  let w := snd (main cfg unescape_basic (fun _ _ => forbidden)
                     (fun _ k => k) ["v1"] w0) in
  failed_response forbidden = true /\
  count_get "v1" (trace w) = 1%nat /\
  count_sleeps (trace w) = 0%nat /\
  Z.of_nat (count_get "v1" (trace w)) <> RETRIES cfg.
Proof. vm_compute. repeat split. discriminate. Qed.

(** C1, amended: for every HTTP 403 response whose error payload yields a
    reason and does not indicate disabled comments, and for every
    non-200/non-403 status, the fetcher writes one error-level log line and
    returns the empty list without raising; the outcome is not retried: the
    batch coordinator issues exactly one request per identifier, in order,
    and nothing but these requests and error lines happens, so no sleep. *)
Theorem failed_fetch_is_not_retried
        (html_unescape : string -> string)
        (net : list event -> string -> response)
        (pick : nat -> nat) (video_ids : list string) (w : world) :
  Forall (fun t => failed_response (snd t) = true)
         (requests net (trace w) video_ids) ->
  (forall vid w1,
     failed_response (net (trace w1) vid) = true ->
     exists line,
       is_error_log line = true /\
       fetch_comments html_unescape net vid w1
       = (Ok [], add_events w1 [EvGet vid; line])) /\
  exists logs,
    process_video_batch html_unescape net pick video_ids w
    = (Ok [], add_events w (map EvGet video_ids ++ logs)) /\
    List.length logs = List.length video_ids /\
    Forall (fun e => is_error_log e = true) logs.
Proof.
  intros Hall. split.
  - intros vid w1 Hf.
    destruct (failed_response_outcome html_unescape vid _ Hf)
      as [Hv [line [He Hl]]].
    exists line. split; [exact Hl|].
    now rewrite fetch_comments_eq, Hv, He.
  - destruct (process_video_batch_ok html_unescape net pick video_ids w)
      as [evs [Hrun Hperm]].
    + eapply Forall_impl; [|exact Hall]. intros [vid r] Hf. simpl in *.
      destruct (failed_response_outcome html_unescape vid r Hf) as [-> _].
      reflexivity.
    + exists evs. split; [|split].
      * rewrite Hrun. f_equal. f_equal.
        clear Hrun Hperm.
        induction Hall as [|[vid r] rest Hf _ IH]; [reflexivity|].
        cbn [flat_map]. rewrite IH. simpl in *.
        destruct (failed_response_outcome html_unescape vid r Hf) as [-> _].
        reflexivity.
      * rewrite (Permutation_length Hperm).
        rewrite <- (requests_length net (trace w) video_ids).
        clear Hrun Hperm.
        induction Hall as [|[vid r] rest Hf _ IH]; [reflexivity|].
        cbn [flat_map]. rewrite length_app, IH. simpl in *.
        destruct (failed_response_outcome html_unescape vid r Hf)
          as [_ [line [-> _]]].
        reflexivity.
      * eapply Permutation_Forall; [symmetry; exact Hperm|].
        clear Hrun Hperm.
        induction Hall as [|[vid r] rest Hf _ IH]; [constructor|].
        cbn [flat_map]. apply Forall_app. split; [|exact IH]. simpl in *.
        destruct (failed_response_outcome html_unescape vid r Hf)
          as [_ [line [-> Hl]]].
        now constructor.
Qed.

Lemma failed_fetch_is_not_retried_witness :
  (forall vid w1,
     failed_response ((fun _ _ => forbidden) (trace w1) vid) = true ->
     exists line,
       is_error_log line = true /\
       fetch_comments unescape_basic (fun _ _ => forbidden) vid w1
       = (Ok [], add_events w1 [EvGet vid; line])) /\
  exists logs,
    process_video_batch unescape_basic (fun _ _ => forbidden) (fun k => k)
                        ["v1"; "v2"] w0
    = (Ok [], add_events w0 (map EvGet ["v1"; "v2"] ++ logs)) /\
    List.length logs = List.length ["v1"; "v2"] /\
    Forall (fun e => is_error_log e = true) logs.
Proof.
  apply (failed_fetch_is_not_retried unescape_basic (fun _ _ => forbidden)
           (fun k => k) ["v1"; "v2"] w0).
  simpl. repeat constructor.
Defined.

(** Where the payload yields a reason (its [errors] list is absent or not
    empty), the fetcher does what C2 says: for a reason that contains
    "commentsDisabled", or a message that contains "disabled comments", it
    returns the empty list for that video identifier and writes one
    informational log line and no error line; the identifier is requested
    exactly once, alone or in a batch, and nothing else happens. *)
Theorem disabled_comments_fetch
        (html_unescape : string -> string)
        (net : list event -> string -> response)
        (pick : nat -> nat) (vid : string) (w : world) (reason : string) :
  status (net (trace w) vid) = 403%Z ->
  error_reason (json (net (trace w) vid)) = Ok reason ->
  contains "commentsDisabled" reason = true
  \/ contains "disabled comments"
              (error_message (json (net (trace w) vid))) = true ->
  fetch_comments html_unescape net vid w
  = (Ok [],
     add_events w
       [EvGet vid;
        EvLog INFO (fmt ["Comments are disabled for video "; vid; "."])]) /\
  process_video_batch html_unescape net pick [vid] w
  = (Ok [],
     add_events w
       [EvGet vid;
        EvLog INFO (fmt ["Comments are disabled for video "; vid; "."])]).
Proof.
  intros Hs Hr Hd.
  assert (Hind : indicates_disabled reason
                   (error_message (json (net (trace w) vid))) = true).
  { unfold indicates_disabled. apply orb_true_iff. exact Hd. }
  destruct (disabled_response_outcome html_unescape vid _ reason Hs Hr Hind)
    as [Hv He].
  split.
  - now rewrite fetch_comments_eq, Hv, He.
  - destruct (process_video_batch_ok html_unescape net pick [vid] w)
      as [evs [Hrun Hperm]].
    + simpl. constructor; [|constructor]. simpl. now rewrite Hv.
    + rewrite Hrun. cbn [requests flat_map fst snd] in *.
      rewrite Hv, He in *. simpl in Hperm.
      apply Permutation_sym, Permutation_length_1_inv in Hperm. subst evs.
      reflexivity.
Qed.

Lemma disabled_comments_fetch_witness :
  fetch_comments unescape_basic (fun _ _ => disabled) "v2" w0
  = (Ok [],
     add_events w0
       [EvGet "v2";
        EvLog INFO (fmt ["Comments are disabled for video "; "v2"; "."])]) /\
  process_video_batch unescape_basic (fun _ _ => disabled) (fun k => k)
                      ["v2"] w0
  = (Ok [],
     add_events w0
       [EvGet "v2";
        EvLog INFO (fmt ["Comments are disabled for video "; "v2"; "."])]).
Proof.
  apply (disabled_comments_fetch unescape_basic (fun _ _ => disabled)
           (fun k => k) "v2" w0 "commentsDisabled").
  - reflexivity.
  - reflexivity.
  - left. reflexivity.
Defined.

(** C2 fails on the code at a payload its premise covers: a 403 response
    whose message says that the video has disabled comments and whose
    [errors] list is present and empty.  The fetcher takes the first entry
    of that list before it looks at the message, so it raises [IndexError]
    instead of returning the empty list, and writes no informational line;
    in a batch the exception aborts the whole batch, and the comments the
    other identifiers returned are lost with it. *)
Theorem disabled_message_with_empty_errors_raises :
  let r := mkResponse 403
             (mkBody (Some (mkErrorObject
                              (Some [])
                              (Some "The video has disabled comments.")))
                     None) in
  let net := fun (_ : list event) vid =>
               if String.eqb vid "v2" then r else one_comment in
  status r = 403%Z /\
  contains "disabled comments" (error_message (json r)) = true /\
  fetch_comments unescape_basic net "v2" w0
  = (Raise (IndexError "list index out of range"),
     add_events w0 [EvGet "v2"]) /\
  process_video_batch unescape_basic net (fun k => k) ["v1"; "v2"] w0
  = (Raise (IndexError "list index out of range"),
     add_events w0 [EvGet "v1"; EvGet "v2"]).
Proof. vm_compute. repeat split. Qed.

(* ================================================================== *)
(** ** The normalizer and the aggregate *)
(* ================================================================== *)

Lemma tasks_ok_or_not {A B} (f : A -> result B) (l : list A) :
  Forall (fun t => is_ok (f t) = true) l
  \/ Exists (fun t => is_ok (f t) = false) l.
Proof.
  induction l as [|t l [IH|IH]].
  - left. constructor.
  - destruct (is_ok (f t)) eqn:E.
    + left. now constructor.
    + right. now constructor.
  - right. now apply Exists_cons_tl.
Qed.

(** Every comment of an aggregate comes from the value of one of the
    fetches of its batch. *)
Lemma process_video_batch_comments html_unescape net pick video_ids w l w' :
  process_video_batch html_unescape net pick video_ids w = (Ok l, w') ->
  (forall c, In c l ->
     exists t l0,
       In t (requests net (trace w) video_ids) /\
       response_value html_unescape (fst t) (snd t) = Ok l0 /\ In c l0) /\
  exists evs,
    w' = add_events w (map EvGet video_ids ++ evs) /\
    Permutation evs
      (flat_map (fun t => response_events (fst t) (snd t))
                (requests net (trace w) video_ids)).
Proof.
  intros Hrun.
  destruct (tasks_ok_or_not
              (fun t => response_value html_unescape (fst t) (snd t))
              (requests net (trace w) video_ids)) as [Hall|Hex].
  - destruct (process_video_batch_ok html_unescape net pick video_ids w Hall)
      as [evs [Hok Hperm]].
    rewrite Hok in Hrun. inversion Hrun; subst. split.
    + intros c Hc. apply in_flat_map in Hc. destruct Hc as [t [Ht Hc]].
      destruct (response_value html_unescape (fst t) (snd t)) as [l0|e] eqn:E;
        [|inversion Hc].
      exists t, l0. auto.
    + now exists evs.
  - destruct (process_video_batch_raise html_unescape net pick video_ids w Hex)
      as [e [evs Hraise]].
    rewrite Hraise in Hrun. discriminate.
Qed.

(** C7: the normalizer decodes the text field with [html.unescape], so that
    raw text "a &amp; b" is stored as "a & b" by a decoder that maps the one
    to the other; a record of the replies listing yields [is_reply = true]
    and [is_reply_to] equal to the supplied parent id, a record of the
    top-level-thread listing yields [is_reply = false] and
    [is_reply_to = null]; the two fetch paths return these records, one per
    item, in order. *)
Theorem normalizer_fields
        (html_unescape : string -> string)
        (vid parent_id : string) (item : thread_item) (ritem : reply_item) :
  let top := top_level_comment html_unescape vid item in
  let reply := reply_comment html_unescape parent_id vid ritem in
  (text top = html_unescape (textDisplay (topLevelComment_snippet item)) /\
   is_reply top = false /\ is_reply_to top = None) /\
  (text reply = html_unescape (textDisplay (reply_snippet ritem)) /\
   is_reply reply = true /\ is_reply_to reply = Some parent_id) /\
  (html_unescape "a &amp; b" = "a & b" ->
   (textDisplay (topLevelComment_snippet item) = "a &amp; b" ->
    text top = "a & b") /\
   (textDisplay (reply_snippet ritem) = "a &amp; b" ->
    text reply = "a & b")) /\
  (forall r w,
     status r = 200%Z ->
     fetch_comments_response html_unescape vid r w
     = (Ok (map (top_level_comment html_unescape vid)
                (get (items (json r)) [])), w)) /\
  (forall comments_list body w,
     comments_list parent_id = Ok body ->
     fetch_replies html_unescape comments_list parent_id vid w
     = (Ok (map (reply_comment html_unescape parent_id vid)
                (get (reply_items body) [])), w)).
Proof.
  intros top reply. repeat split.
  - intros Hraw. subst top. simpl. now rewrite Hraw.
  - intros Hraw. subst reply. simpl. now rewrite Hraw.
  - intros r w Hs. unfold fetch_comments_response. rewrite Hs. reflexivity.
  - intros comments_list body w Hb. unfold fetch_replies, bind, lift.
    rewrite Hb. reflexivity.
Qed.

Lemma normalizer_fields_witness :
  let item := mkThreadItem "c1" (sample_snippet "a &amp; b") (Some 1%Z) in
  let ritem := mkReplyItem "c1.r1" (sample_snippet "a &amp; b") in
  text (top_level_comment unescape_basic "v1" item) = "a & b" /\
  text (reply_comment unescape_basic "c1" "v1" ritem) = "a & b" /\
  fetch_comments_response unescape_basic "v1" one_comment w0
  = (Ok [top_level_comment unescape_basic "v1" item], w0) /\
  fetch_replies unescape_basic
    (fun _ => Ok (mkRepliesBody (Some [ritem]))) "c1" "v1" w0
  = (Ok [reply_comment unescape_basic "c1" "v1" ritem], w0).
Proof.
  intros item ritem.
  destruct (normalizer_fields unescape_basic "v1" "c1" item ritem)
    as [_ [_ [Hex [Htop Hrep]]]].
  destruct (Hex eq_refl) as [H1 H2].
  split; [exact (H1 eq_refl)|]. split; [exact (H2 eq_refl)|]. split.
  - exact (Htop one_comment w0 eq_refl).
  - exact (Hrep (fun _ => Ok (mkRepliesBody (Some [ritem])))
                (mkRepliesBody (Some [ritem])) w0 eq_refl).
Defined.

Lemma retry_loop_no_result cfg (A : Type) (op : string -> M (list A)) vid :
  (forall w, exists e w1, op vid w = (Raise e, w1)) ->
  forall attempts w r w',
    retry_loop cfg A op vid attempts w = (Ok r, w') -> r = None.
Proof.
  intros Hop attempts. induction attempts as [|a rest IH]; intros w r w' H.
  - simpl in H. unfold ret in H. now inversion H.
  - cbn [retry_loop] in H. unfold try_except, invoke, bind at 1 2 in H.
    rewrite emit_eq in H.
    destruct (Hop (add_events w [EvCall vid])) as [e [w1 He]].
    rewrite He in H. unfold bind at 1 in H. rewrite log_eq in H.
    unfold bind at 1, time_sleep in H.
    destruct (DELAY cfg <? 0)%Z.
    + unfold raise in H. discriminate.
    + rewrite emit_eq in H. now apply IH in H.
Qed.

(** C8: every comment produced by a code path (the body of the fetcher, the
    fetcher, the aggregate of a batch, the replies path, the retry wrapper
    over its callee) has [is_reply_to] null if and only if [is_reply] is
    false; every comment of the replies path has [reply_count = 0]. *)
Theorem comment_invariants
        (cfg : config) (html_unescape : string -> string)
        (net : list event -> string -> response)
        (comments_list : string -> result replies_body) :
  (forall vid r w l w',
     fetch_comments_response html_unescape vid r w = (Ok l, w') ->
     Forall reply_link_ok l) /\
  (forall vid w l w',
     fetch_comments html_unescape net vid w = (Ok l, w') ->
     Forall reply_link_ok l) /\
  (forall pick video_ids w l w',
     process_video_batch html_unescape net pick video_ids w = (Ok l, w') ->
     Forall reply_link_ok l) /\
  (forall parent_id vid w l w',
     fetch_replies html_unescape comments_list parent_id vid w = (Ok l, w') ->
     Forall (fun c => reply_link_ok c /\ reply_count c = 0%Z) l) /\
  (forall vid w l w',
     fetch_comments_with_retry cfg Comment
       (fetch_comments_missing_argument Comment) vid w = (Ok l, w') ->
     l = []).
Proof.
  assert (Htop : forall vid r l,
             response_value html_unescape vid r = Ok l ->
             Forall reply_link_ok l).
  { intros vid r l H. apply response_value_comments in H.
    eapply Forall_impl; [|exact H]. intros c [_ [Hr Ht]].
    unfold reply_link_ok. now rewrite Hr, Ht. }
  repeat split.
  - intros vid r w l w' H. rewrite fetch_comments_response_eq in H.
    inversion H. eauto.
  - intros vid w l w' H. rewrite fetch_comments_eq in H.
    inversion H. eauto.
  - intros pick video_ids w l w' H.
    apply process_video_batch_comments in H. destruct H as [H _].
    apply Forall_forall. intros c Hc.
    destruct (H c Hc) as [t [l0 [_ [Hv Hin]]]].
    apply Htop in Hv. rewrite Forall_forall in Hv. now apply Hv.
  - intros parent_id vid w l w' H. unfold fetch_replies, bind, lift in H.
    destruct (comments_list parent_id) as [body|e]; [|discriminate].
    unfold ret in H. inversion H; subst.
    apply Forall_forall. intros c Hc. apply in_map_iff in Hc.
    destruct Hc as [item [<- _]]. unfold reply_link_ok. simpl.
    split; [split; discriminate|reflexivity].
  - intros vid w l w' H.
    unfold fetch_comments_with_retry, bind at 1, lift in H.
    destruct (py_range 0 (RETRIES cfg) 1) as [attempts|e]; [|discriminate].
    unfold bind at 1 in H.
    destruct (retry_loop cfg Comment (fetch_comments_missing_argument Comment)
                         vid attempts w) as [[r|e] w1] eqn:E; [|discriminate].
    apply retry_loop_no_result in E.
    + subst r. unfold bind, ret in H. rewrite log_eq in H. now inversion H.
    + intros w2. eexists. eexists. reflexivity.
Qed.

Lemma comment_invariants_witness :
  Forall reply_link_ok
    [top_level_comment unescape_basic "v1"
       (mkThreadItem "c1" (sample_snippet "a &amp; b") (Some 1%Z))] /\
  Forall (fun c => reply_link_ok c /\ reply_count c = 0%Z)
    [reply_comment unescape_basic "c1" "v1"
       (mkReplyItem "c1.r1" (sample_snippet "ok"))].
Proof.
  destruct (comment_invariants (mkConfig 2 5 10) unescape_basic
              (fun _ _ => one_comment)
              (fun _ => Ok (mkRepliesBody
                              (Some [mkReplyItem "c1.r1" (sample_snippet "ok")]))))
    as [Hbody [_ [_ [Hrep _]]]].
  split.
  - exact (Hbody "v1" one_comment w0 _ w0 eq_refl).
  - exact (Hrep "c1" "v1" w0 _ w0 eq_refl).
Defined.

Lemma fetched_lists html_unescape (tasks : list (string * response)) lists :
  Forall2 (fun t l =>
             forall w1,
               fst (fetch_comments_response html_unescape (fst t) (snd t) w1)
               = Ok l) tasks lists ->
  Forall (fun t => is_ok (response_value html_unescape (fst t) (snd t)) = true)
         tasks /\
  flat_map (fun t => value_or_empty
                       (response_value html_unescape (fst t) (snd t))) tasks
  = List.concat lists /\
  Forall2 (fun t l => Forall (fun c => video_id c = fst t) l) tasks lists.
Proof.
  induction 1 as [|t l tasks lists Ht _ [IH1 [IH2 IH3]]].
  - repeat split; constructor.
  - specialize (Ht w0). rewrite fetch_comments_response_eq in Ht.
    simpl in Ht. repeat split.
    + constructor; [now rewrite Ht|exact IH1].
    + cbn [flat_map List.concat]. now rewrite Ht, IH2.
    + constructor; [|exact IH3].
      apply response_value_comments in Ht.
      eapply Forall_impl; [|exact Ht]. now intros c [Hc _].
Qed.

(** C9: for every batch of video identifiers and every completion order of
    its tasks, the aggregate is the concatenation of the lists fetched for
    the identifiers, in the order the identifiers have in the batch, and
    every comment of it carries the [video_id] of the identifier it was
    fetched for. *)
Theorem aggregate_in_identifier_order
        (html_unescape : string -> string)
        (net : list event -> string -> response)
        (pick : nat -> nat) (video_ids : list string) (w : world)
        (lists : list (list Comment)) :
  Forall2 (fun t l =>
             forall w1,
               fst (fetch_comments_response html_unescape (fst t) (snd t) w1)
               = Ok l)
          (requests net (trace w) video_ids) lists ->
  fst (process_video_batch html_unescape net pick video_ids w)
  = Ok (List.concat lists) /\
  Forall2 (fun vid l => Forall (fun c => video_id c = vid) l) video_ids lists.
Proof.
  intros H. destruct (fetched_lists html_unescape _ _ H) as [Hall [Hcat Hvid]].
  destruct (process_video_batch_ok html_unescape net pick video_ids w Hall)
    as [evs [Hrun _]].
  split.
  - now rewrite Hrun, Hcat.
  - rewrite <- (requests_ids net (trace w) video_ids) at 1.
    clear - Hvid. induction Hvid; simpl; constructor; auto.
Qed.

Lemma aggregate_in_identifier_order_witness :
  let net := fun (_ : list event) vid =>
               if String.eqb vid "v2" then disabled else one_comment in
  let c1 := top_level_comment unescape_basic "v1"
              (mkThreadItem "c1" (sample_snippet "a &amp; b") (Some 1%Z)) in
  let c3 := top_level_comment unescape_basic "v3"
              (mkThreadItem "c1" (sample_snippet "a &amp; b") (Some 1%Z)) in
  fst (process_video_batch unescape_basic net (fun _ => 2%nat)
                           ["v1"; "v2"; "v3"] w0)
  = Ok (List.concat [[c1]; []; [c3]]) /\
  Forall2 (fun vid l => Forall (fun c => video_id c = vid) l)
          ["v1"; "v2"; "v3"] [[c1]; []; [c3]].
Proof.
  intros net c1 c3.
  apply (aggregate_in_identifier_order unescape_basic net (fun _ => 2%nat)
           ["v1"; "v2"; "v3"] w0 [[c1]; []; [c3]]).
  simpl. repeat constructor.
Defined.

(* ================================================================== *)
(** ** The store writer *)
(* ================================================================== *)

Lemma id_present (i : string) (t : table) :
  existsb (fun r' => String.eqb (row_id r') i) t = true <-> In i (map row_id t).
Proof.
  rewrite existsb_exists, in_map_iff. split.
  - intros [r [Hin Heq]]. apply String.eqb_eq in Heq. now exists r.
  - intros [r [Heq Hin]]. exists r. split; [exact Hin|].
    now apply String.eqb_eq.
Qed.

Lemma insert_present (r : row) (t : table) :
  In (row_id r) (map row_id t) -> insert_or_ignore r t = t.
Proof.
  intros H. apply id_present in H. unfold insert_or_ignore. now rewrite H.
Qed.

Lemma insert_absent (r : row) (t : table) :
  ~ In (row_id r) (map row_id t) -> insert_or_ignore r t = t ++ [r].
Proof.
  intros H. unfold insert_or_ignore.
  destruct (existsb _ t) eqn:E; [|reflexivity].
  apply id_present in E. contradiction.
Qed.

Lemma insert_keeps_ids (r : row) (t : table) (i : string) :
  In i (map row_id t) -> In i (map row_id (insert_or_ignore r t)).
Proof.
  intros H. unfold insert_or_ignore. destruct (existsb _ t); [exact H|].
  rewrite map_app. apply in_or_app. now left.
Qed.

Lemma insert_has_id (r : row) (t : table) :
  In (row_id r) (map row_id (insert_or_ignore r t)).
Proof.
  unfold insert_or_ignore.
  destruct (existsb _ t) eqn:E.
  - now apply id_present.
  - rewrite map_app. apply in_or_app. right. now left.
Qed.

Lemma insert_pk_unique (r : row) (t : table) :
  pk_unique t -> pk_unique (insert_or_ignore r t).
Proof.
  unfold pk_unique, insert_or_ignore. intros H.
  destruct (existsb _ t) eqn:E; [exact H|].
  rewrite map_app. simpl.
  apply NoDup_app; [exact H|repeat constructor; intros []|].
  intros i Hin [<-|[]]. apply id_present in Hin. congruence.
Qed.

Lemma executemany_snoc (rows : list row) (r : row) (t : table) :
  executemany (rows ++ [r]) t = insert_or_ignore r (executemany rows t).
Proof. unfold executemany. now rewrite fold_left_app. Qed.

Lemma executemany_keeps_ids (rows : list row) (t : table) (i : string) :
  In i (map row_id t) -> In i (map row_id (executemany rows t)).
Proof.
  revert t. induction rows as [|r rows IH]; intros t H; [exact H|].
  simpl. apply IH. now apply insert_keeps_ids.
Qed.

Lemma executemany_has_ids (rows : list row) (t : table) (r : row) :
  In r rows -> In (row_id r) (map row_id (executemany rows t)).
Proof.
  revert t. induction rows as [|r' rows IH]; intros t Hin; [inversion Hin|].
  destruct Hin as [->|Hin]; simpl.
  - apply executemany_keeps_ids, insert_has_id.
  - now apply IH.
Qed.

Lemma executemany_present (rows : list row) (t : table) :
  (forall r, In r rows -> In (row_id r) (map row_id t)) ->
  executemany rows t = t.
Proof.
  induction rows as [|r rows IH]; intros H; [reflexivity|].
  simpl. rewrite insert_present by (apply H; now left).
  apply IH. intros r' Hr'. apply H. now right.
Qed.

Lemma executemany_idempotent (rows : list row) (t : table) :
  executemany rows (executemany rows t) = executemany rows t.
Proof.
  apply executemany_present. intros r Hr. now apply executemany_has_ids.
Qed.

Lemma executemany_pk_unique (rows : list row) (t : table) :
  pk_unique t -> pk_unique (executemany rows t).
Proof.
  revert t. induction rows as [|r rows IH]; intros t H; [exact H|].
  simpl. apply IH. now apply insert_pk_unique.
Qed.

Lemma executemany_fresh (rows : list row) (t : table) :
  NoDup (map row_id rows) ->
  (forall r, In r rows -> ~ In (row_id r) (map row_id t)) ->
  executemany rows t = t ++ rows.
Proof.
  revert t. induction rows as [|r rows IH]; intros t Hnd Hfresh.
  - simpl. now rewrite app_nil_r.
  - simpl. inversion Hnd as [|? ? Hnotin Hnd']; subst.
    rewrite insert_absent by (apply Hfresh; now left).
    rewrite IH; [now rewrite <- app_assoc|exact Hnd'|].
    intros r' Hr'. rewrite map_app. intros Hin.
    apply in_app_or in Hin. destruct Hin as [Hin|[Heq|[]]].
    + apply (Hfresh r'); [now right|exact Hin].
    + apply Hnotin. rewrite Heq. now apply in_map.
Qed.

Lemma unique_row (i : string) (t : table) :
  pk_unique t -> In i (map row_id t) ->
  exists first,
    In first t /\ filter (fun r => String.eqb (row_id r) i) t = [first].
Proof.
  unfold pk_unique. induction t as [|r t IH]; intros Hnd Hin; [inversion Hin|].
  simpl in *. inversion Hnd as [|? ? Hnotin Hnd']; subst.
  destruct (String.eqb_spec (row_id r) i) as [Heq|Hne].
  - exists r. split; [now left|]. f_equal.
    assert (Hnone : forall l, ~ In i (map row_id l) ->
                      filter (fun r0 => String.eqb (row_id r0) i) l = []).
    { induction l as [|x l IHl]; intros Hx; [reflexivity|]. simpl in *.
      destruct (String.eqb_spec (row_id x) i); [exfalso; auto|].
      apply IHl. auto. }
    apply Hnone. now rewrite <- Heq.
  - destruct Hin as [Heq|Hin]; [contradiction|].
    destruct (IH Hnd' Hin) as [first [Hf Hfilter]].
    exists first. split; [now right|exact Hfilter].
Qed.

(** C5: inserting a Comment row whose [id] is already in the store, with the
    same or with different values in the other fields, leaves the store
    unchanged: one row with that [id] exists afterwards, the one inserted
    first; inserting a second row with the [id] of a first one changes
    nothing, and the stored row is the first when the [id] was new; hence
    inserting a batch twice equals inserting it once. *)
Theorem insert_if_absent (t : table) (c : Comment) :
  pk_unique t ->
  (In (id c) (map row_id t) ->
   insert_or_ignore (row_of c) t = t /\
   exists first,
     In first t /\
     filter (fun r => String.eqb (row_id r) (id c))
            (insert_or_ignore (row_of c) t) = [first]) /\
  count_id (id c) (insert_or_ignore (row_of c) t) = 1%nat /\
  (forall c', id c' = id c ->
     insert_or_ignore (row_of c') (insert_or_ignore (row_of c) t)
     = insert_or_ignore (row_of c) t) /\
  (~ In (id c) (map row_id t) ->
   forall c', id c' = id c ->
     filter (fun r => String.eqb (row_id r) (id c))
            (insert_or_ignore (row_of c') (insert_or_ignore (row_of c) t))
     = [row_of c]) /\
  (forall comments w,
     working (snd ((insert_comments_batch comments ;;
                    insert_comments_batch comments) w))
     = working (snd (insert_comments_batch comments w))).
Proof.
  intros Hpk.
  assert (Htwice : forall c', id c' = id c ->
            insert_or_ignore (row_of c') (insert_or_ignore (row_of c) t)
            = insert_or_ignore (row_of c) t).
  { intros c' Hid. apply insert_present.
    change (row_id (row_of c')) with (id c'). rewrite Hid.
    apply (insert_has_id (row_of c)). }
  assert (Hone : exists first,
            In first (insert_or_ignore (row_of c) t) /\
            filter (fun r => String.eqb (row_id r) (id c))
                   (insert_or_ignore (row_of c) t) = [first]).
  { apply unique_row; [now apply insert_pk_unique|].
    apply (insert_has_id (row_of c)). }
  split; [|split; [|split; [|split]]].
  - intros Hin. rewrite (insert_present (row_of c) t Hin). split; [reflexivity|].
    now apply unique_row.
  - destruct Hone as [first [_ Hf]]. unfold count_id. now rewrite Hf.
  - exact Htwice.
  - intros Hnew c' Hid. rewrite (Htwice c' Hid).
    destruct Hone as [first [_ Hf]]. rewrite Hf. f_equal.
    rewrite (insert_absent (row_of c) t Hnew), filter_app in Hf.
    simpl in Hf. change (row_id (row_of c)) with (id c) in Hf.
    rewrite String.eqb_refl in Hf.
    destruct (filter (fun r => String.eqb (row_id r) (id c)) t) as [|x l] eqn:E.
    + simpl in Hf. now inversion Hf.
    + exfalso. apply Hnew.
      assert (Hx : In x (filter (fun r => String.eqb (row_id r) (id c)) t))
        by (rewrite E; now left).
      apply filter_In in Hx. destruct Hx as [Hx Heq].
      apply String.eqb_eq in Heq. rewrite <- Heq. now apply in_map.
  - intros comments w. unfold bind, insert_comments_batch. simpl.
    apply executemany_idempotent.
Qed.

Lemma insert_if_absent_witness :
  let c := top_level_comment unescape_basic "v1"
             (mkThreadItem "c1" (sample_snippet "first") (Some 1%Z)) in
  let c' := top_level_comment unescape_basic "v1"
              (mkThreadItem "c1" (sample_snippet "second") (Some 7%Z)) in
  insert_or_ignore (row_of c') [row_of c] = [row_of c] /\
  count_id "c1" (insert_or_ignore (row_of c') [row_of c]) = 1%nat /\
  filter (fun r => String.eqb (row_id r) "c1")
         (insert_or_ignore (row_of c') (insert_or_ignore (row_of c) []))
  = [row_of c].
Proof.
  intros c c'.
  assert (Hpk : pk_unique [row_of c]).
  { unfold pk_unique. simpl. repeat constructor. intros []. }
  assert (Hpk0 : pk_unique []) by constructor.
  destruct (insert_if_absent [row_of c] c' Hpk) as [Hsame [Hcount _]].
  destruct (insert_if_absent [] c Hpk0) as [_ [_ [_ [Hfirst _]]]].
  split; [|split].
  - apply Hsame. simpl. now left.
  - exact Hcount.
  - apply (Hfirst (fun H => H) c'). reflexivity.
Defined.

(* ================================================================== *)
(** ** Atomicity of a batch *)
(* ================================================================== *)

(** C6: the writes of a batch are atomic.  The [if comments:] block is the
    multi-row statement, then the commit, then the log line.  Started with
    no pending transaction: when the statement is interrupted after any
    number of its rows, or has run in full and the commit has not, the
    durable table is the one from before the batch, so none of the batch's
    rows is visible, and leaving the connection's block by an exception at
    that point discards them; once the commit has run, and after the whole
    block, the durable table is the one after the whole statement, in which
    every row of the batch is visible under insert-if-absent (its [id] is
    stored, and the rows themselves are appended when their ids are new and
    distinct).  No other durable table occurs. *)
Theorem batch_writes_atomic
        (cfg : config) (comments : list Comment) (i : Z) (w : world) :
  let rows := map row_of comments in
  let statement := insert_comments_batch comments in
  working w = durable w ->
  (comments <> [] ->
   store_batch cfg comments i w
   = (statement ;; conn_commit ;; log INFO (inserted_msg cfg comments i)) w) /\
  (forall k,
     durable (snd (insert_comments_batch (firstn k comments) w)) = durable w) /\
  durable (snd (statement w)) = durable w /\
  (forall e,
     durable (snd (with_connection (statement ;; raise (A := unit) e) w))
     = durable w /\
     working (snd (with_connection (statement ;; raise (A := unit) e) w))
     = durable w) /\
  durable (snd ((statement ;; conn_commit) w)) = executemany rows (durable w) /\
  durable (snd (store_batch cfg comments i w)) = executemany rows (durable w) /\
  (forall c, In c comments ->
     In (id c) (map row_id (executemany rows (durable w)))) /\
  (NoDup (map row_id rows) ->
   (forall r, In r rows -> ~ In (row_id r) (map row_id (durable w))) ->
   executemany rows (durable w) = durable w ++ rows).
Proof.
  intros rows statement Hclean. subst rows statement.
  split; [|split; [|split; [|split; [|split; [|split; [|split]]]]]].
  - intros Hne. unfold store_batch.
    destruct comments as [|c cs]; [contradiction|]. reflexivity.
  - intros k. reflexivity.
  - reflexivity.
  - intros e. split; reflexivity.
  - unfold bind, insert_comments_batch, conn_commit. simpl. now rewrite Hclean.
  - unfold store_batch. destruct comments as [|c cs]; [reflexivity|].
    cbn [truthy]. unfold bind, insert_comments_batch, conn_commit, log, emit.
    simpl. now rewrite Hclean.
  - intros c Hc. change (id c) with (row_id (row_of c)).
    apply executemany_has_ids. now apply in_map.
  - apply executemany_fresh.
Qed.

Lemma batch_writes_atomic_witness :
  let c1 := top_level_comment unescape_basic "v1"
              (mkThreadItem "c1" (sample_snippet "one") None) in
  let c2 := top_level_comment unescape_basic "v1"
              (mkThreadItem "c2" (sample_snippet "two") None) in
  let e := mkExn "OperationalError" "disk I/O error" in
  durable (snd (insert_comments_batch (firstn 1 [c1; c2]) w0)) = durable w0 /\
  durable (snd (insert_comments_batch [c1; c2] w0)) = [] /\
  working (snd (with_connection
                  (insert_comments_batch [c1; c2] ;; raise (A := unit) e) w0))
  = [] /\
  durable (snd (store_batch (mkConfig 3 5 2) [c1; c2] 0 w0))
  = [row_of c1; row_of c2].
Proof.
  intros c1 c2 e.
  destruct (batch_writes_atomic (mkConfig 3 5 2) [c1; c2] 0 w0 eq_refl)
    as [_ [Hrow [Hstmt [Hexn [_ [Hdone _]]]]]].
  split; [exact (Hrow 1%nat)|]. split; [exact Hstmt|].
  split; [exact (proj2 (Hexn e))|]. exact Hdone.
Defined.

(* ================================================================== *)
(** ** A batch without comments *)
(* ================================================================== *)

Lemma fetch_events_not_store vid r e :
  In e (response_events vid r) -> is_store_event e = false.
Proof.
  unfold response_events, failure_line.
  destruct (status r =? 403)%Z.
  - destruct (error_reason (json r)) as [reason|x]; [|intros []].
    destruct (indicates_disabled reason (error_message (json r)));
      intros [<-|[]]; reflexivity.
  - destruct (negb (status r =? 200)%Z); [|intros []].
    intros [<-|[]]. reflexivity.
Qed.

(** C10: when a batch yields zero comments, the iteration of the loop ends
    where the fetches ended: the store writer is not invoked, no commit is
    issued, no batch-completion log line is written (the only events are the
    requests and the log lines of the fetches), and both the durable table
    and the connection's view of it are what they were before the batch. *)
Theorem empty_batch_leaves_store
        (cfg : config) (html_unescape : string -> string)
        (net : list event -> string -> response) (sched : Z -> nat -> nat)
        (video_ids : list string) (i : Z) (w w1 : world) :
  process_video_batch html_unescape net (sched i) (batch_at cfg video_ids i) w
  = (Ok [], w1) ->
  main_iteration cfg html_unescape net sched video_ids i w = (Ok tt, w1) /\
  durable w1 = durable w /\
  working w1 = working w /\
  exists evs,
    trace w1 = trace w ++ evs /\
    Forall (fun e => is_store_event e = false) evs.
Proof.
  intros Hrun. split.
  - unfold main_iteration, bind. rewrite Hrun. reflexivity.
  - apply process_video_batch_comments in Hrun.
    destruct Hrun as [_ [evs [-> Hperm]]]. simpl.
    repeat split. eexists. split; [reflexivity|].
    apply Forall_app. split.
    + apply Forall_forall. intros e He. apply in_map_iff in He.
      destruct He as [vid [<- _]]. reflexivity.
    + eapply Permutation_Forall; [symmetry; exact Hperm|].
      apply Forall_forall. intros e He. apply in_flat_map in He.
      destruct He as [[vid r] [_ He]]. eapply fetch_events_not_store; eauto.
Qed.

Lemma empty_batch_leaves_store_witness :
  let cfg := mkConfig 3 5 2 in
  let stored := [row_of (top_level_comment unescape_basic "v0"
                   (mkThreadItem "c0" (sample_snippet "old") None))] in
  let w := mkWorld [] stored stored in
  let w1 := snd (process_video_batch unescape_basic (fun _ _ => disabled)
                   (fun k => k) ["v1"; "v2"] w) in
  main_iteration cfg unescape_basic (fun _ _ => disabled) (fun _ k => k)
                 ["v1"; "v2"] 0 w = (Ok tt, w1) /\
  durable w1 = stored /\
  working w1 = stored /\
  exists evs,
    trace w1 = [] ++ evs /\
    Forall (fun e => is_store_event e = false) evs.
Proof.
  intros cfg stored w w1.
  apply (empty_batch_leaves_store cfg unescape_basic (fun _ _ => disabled)
           (fun _ k => k) ["v1"; "v2"] 0 w w1).
  reflexivity.
Defined.

(* ================================================================== *)
(** ** The batches of the run *)
(* ================================================================== *)

Lemma firstn_add {A} (a b : nat) (l : list A) :
  firstn (a + b) l = firstn a l ++ firstn b (skipn a l).
Proof.
  revert l. induction a as [|a IH]; intros l; [reflexivity|].
  destruct l as [|x l]; simpl; [now rewrite firstn_nil|].
  now rewrite IH.
Qed.

Lemma concat_chunks {A} (b m : nat) (l : list A) :
  List.concat (map (fun k => firstn b (skipn (k * b) l)) (seq 0 m))
  = firstn (m * b) l.
Proof.
  induction m as [|m IH]; [reflexivity|].
  rewrite seq_S, map_app, concat_app, IH. simpl.
  rewrite app_nil_r. replace (b + m * b)%nat with (m * b + b)%nat by lia.
  now rewrite firstn_add.
Qed.

Lemma py_slice_chunk {A} (l : list A) (k : nat) (B : Z) :
  (0 < B)%Z ->
  py_slice l (0 + Z.of_nat k * B) (0 + Z.of_nat k * B + B)
  = firstn (Z.to_nat B) (skipn (k * Z.to_nat B) l).
Proof.
  intros HB. unfold py_slice, slice_bound.
  set (N := Z.of_nat (List.length l)).
  assert (Hk : (0 <= Z.of_nat k * B)%Z) by nia.
  destruct (Z.ltb_spec (0 + Z.of_nat k * B) 0); [lia|].
  destruct (Z.ltb_spec (0 + Z.of_nat k * B + B) 0); [lia|].
  assert (Hkb : Z.of_nat (k * Z.to_nat B) = (Z.of_nat k * B)%Z)
    by (rewrite Nat2Z.inj_mul, Z2Nat.id; lia).
  destruct (Z_le_gt_dec (0 + Z.of_nat k * B) N) as [Hin|Hout].
  - rewrite (Z.min_l (0 + Z.of_nat k * B) N) by lia.
    replace (Z.to_nat (0 + Z.of_nat k * B)) with (k * Z.to_nat B)%nat by lia.
    set (rest := skipn (k * Z.to_nat B) l).
    assert (Hrest : Z.of_nat (List.length rest) = (N - Z.of_nat k * B)%Z).
    { subst rest N. rewrite length_skipn. lia. }
    destruct (Z_le_gt_dec (0 + Z.of_nat k * B + B) N).
    + rewrite Z.min_l by lia. f_equal. lia.
    + rewrite Z.min_r by lia.
      replace (Z.to_nat (N - (0 + Z.of_nat k * B))) with (List.length rest)
        by lia.
      rewrite firstn_all. symmetry. apply firstn_all2. lia.
  - rewrite !Z.min_r by lia. rewrite Z.sub_diag. simpl.
    rewrite skipn_all2 by (subst N; lia). now rewrite firstn_nil.
Qed.

Lemma range_len_batches (N B : Z) :
  (0 <= N)%Z -> (0 < B)%Z ->
  range_len 0 N B = ((N + B - 1) / B)%Z /\
  (N <= range_len 0 N B * B)%Z /\
  (0 < range_len 0 N B -> (range_len 0 N B - 1) * B < N)%Z.
Proof.
  intros HN HB. unfold range_len.
  destruct (Z.ltb_spec 0 B); [|lia].
  destruct (Z.ltb_spec 0 N) as [Hpos|Hzero].
  - replace (N - 0 - 1)%Z with (N - 1)%Z by lia.
    replace (N + B - 1)%Z with (N - 1 + 1 * B)%Z by lia.
    rewrite Z.div_add by lia.
    pose proof (Z.div_mod (N - 1) B ltac:(lia)) as Hdm.
    pose proof (Z.mod_pos_bound (N - 1) B HB) as Hmod.
    repeat split; nia.
  - replace N with 0%Z by lia. simpl.
    rewrite Z.div_small by lia. repeat split; lia.
Qed.

(** C4: for every list of [N] video identifiers and every batch size
    [B > 0], the batches of the run are [ceil(N/B)] contiguous slices taken
    in order, each of size [B] except possibly the last, whose size is
    [N mod B] when that is not zero and [B] otherwise; concatenating them
    restores the list. *)
Theorem batches_partition (cfg : config) (video_ids : list string) :
  let N := Z.of_nat (List.length video_ids) in
  let B := BATCH_SIZE cfg in
  (0 < B)%Z ->
  exists bs,
    batches cfg video_ids = Ok bs /\
    Z.of_nat (List.length bs) = ((N + B - 1) / B)%Z /\
    List.concat bs = video_ids /\
    forall k batch,
      nth_error bs k = Some batch ->
      batch = py_slice video_ids (Z.of_nat k * B) (Z.of_nat k * B + B) /\
      Z.of_nat (List.length batch)
      = if (S k <? List.length bs)%nat then B
        else if (N mod B =? 0)%Z then B else (N mod B)%Z.
Proof.
  intros N B HB.
  destruct (range_len_batches N B ltac:(lia) HB) as [Hceil [Hcover Hlast]].
  set (m := Z.to_nat (range_len 0 N B)) in *.
  assert (Hm : Z.of_nat m = range_len 0 N B).
  { subst m. apply Z2Nat.id. rewrite Hceil. apply Z.div_pos; lia. }
  set (chunk := fun k => firstn (Z.to_nat B) (skipn (k * Z.to_nat B) video_ids)).
  assert (Hbs : batches cfg video_ids = Ok (map chunk (seq 0 m))).
  { unfold batches, py_range. fold B N.
    destruct (Z.eqb_spec B 0); [lia|]. fold m. rewrite map_map.
    f_equal. apply map_ext. intros k. unfold batch_at. fold B.
    now apply py_slice_chunk. }
  exists (map chunk (seq 0 m)). split; [exact Hbs|].
  rewrite length_map, length_seq. split; [lia|]. split.
  - unfold chunk. rewrite concat_chunks. apply firstn_all2.
    apply Nat2Z.inj_le. rewrite Nat2Z.inj_mul, Z2Nat.id by lia.
    fold N. lia.
  - intros k batch Hk. rewrite nth_error_map in Hk.
    destruct (nth_error (seq 0 m) k) as [k'|] eqn:Ek; [|discriminate].
    assert (Hlt : (k < m)%nat).
    { rewrite <- (length_seq m 0). apply nth_error_Some. now rewrite Ek. }
    assert (k' = k).
    { apply (nth_error_nth _ _ 0%nat) in Ek. rewrite seq_nth in Ek by exact Hlt.
      lia. }
    subst k'. simpl in Hk. inversion Hk as [Hbatch]. split.
    + unfold chunk.
      rewrite <- (py_slice_chunk video_ids k B HB). reflexivity.
    + unfold chunk. rewrite length_firstn, length_skipn.
      assert (HkB : Z.of_nat (k * Z.to_nat B) = (Z.of_nat k * B)%Z)
        by (rewrite Nat2Z.inj_mul, Z2Nat.id; lia).
      destruct (Nat.ltb_spec (S k) m) as [Hmid|Hend].
      * assert ((Z.of_nat k + 1) * B <= (range_len 0 N B - 1) * B)%Z by nia.
        specialize (Hlast ltac:(lia)). lia.
      * assert (Hkm : Z.of_nat k = (range_len 0 N B - 1)%Z) by lia.
        specialize (Hlast ltac:(lia)).
        assert (Hsz : (0 < N - Z.of_nat k * B <= B)%Z) by nia.
        destruct (Z.eqb_spec (N mod B) 0) as [Hmod|Hmod].
        -- assert (N - Z.of_nat k * B = B)%Z; [|lia].
           apply Z.mod_divide in Hmod; [|lia]. destruct Hmod as [c Hc].
           assert (c = Z.of_nat k + 1)%Z by nia. nia.
        -- assert (N mod B = N - Z.of_nat k * B)%Z; [|lia].
           symmetry. apply (Z.mod_unique N B (Z.of_nat k)); [|lia].
           left. split; [lia|].
           assert (N - Z.of_nat k * B <> B)%Z; [|lia].
           intros Heq. apply Hmod.
           replace N with ((Z.of_nat k + 1) * B)%Z by lia.
           apply Z.mod_mul. lia.
Qed.

Lemma batches_partition_witness :
  exists bs,
    batches (mkConfig 3 5 3) ["a"; "b"; "c"; "d"; "e"; "f"; "g"] = Ok bs /\
    Z.of_nat (List.length bs) = ((7 + 3 - 1) / 3)%Z /\
    List.concat bs = ["a"; "b"; "c"; "d"; "e"; "f"; "g"] /\
    forall k batch,
      nth_error bs k = Some batch ->
      batch = py_slice ["a"; "b"; "c"; "d"; "e"; "f"; "g"]
                       (Z.of_nat k * 3) (Z.of_nat k * 3 + 3) /\
      Z.of_nat (List.length batch)
      = if (S k <? List.length bs)%nat then 3%Z
        else if (7 mod 3 =? 0)%Z then 3%Z else (7 mod 3)%Z.
Proof.
  apply (batches_partition (mkConfig 3 5 3)
           ["a"; "b"; "c"; "d"; "e"; "f"; "g"]).
  simpl. lia.
Defined.

(* ================================================================== *)
(** ** More on the retry wrapper *)
(* ================================================================== *)

(** X1: the retry wrapper stops at the first success.  When the first [k]
    attempts on the operation fail, [k < RETRIES], whatever the operation
    did before raising, and its next call returns, the wrapper returns that
    result in the world the operation left: the [k] failed attempts were
    logged and slept on, no further attempt is made and no exhaustion
    message is written. *)
Theorem retry_until_success
        (cfg : config) (A : Type) (op : string -> M (list A))
        (vid : string) (w : world) (k : nat) (w_k : world) (l : list A)
        (w_ok : world) :
  (0 <= DELAY cfg)%Z ->
  (Z.of_nat k < RETRIES cfg)%Z ->
  failed_run cfg op vid 1 k w w_k ->
  op vid (add_events w_k [EvCall vid]) = (Ok l, w_ok) ->
  fetch_comments_with_retry cfg A op vid w = (Ok l, w_ok).
Proof.
  intros Hd Hr Hrun Hok.
  unfold fetch_comments_with_retry, bind at 1, lift.
  rewrite py_range_unit by lia.
  unfold bind at 1.
  replace (Z.to_nat (RETRIES cfg))
    with (k + S (Z.to_nat (RETRIES cfg) - S k))%nat by lia.
  rewrite (retry_loop_after_failures cfg A op vid Hd k 0 w w_k Hrun).
  cbn [seq map retry_loop].
  unfold try_except, invoke, bind at 1 2. rewrite emit_eq, Hok. reflexivity.
Qed.

Lemma retry_until_success_witness :
  exists w_ok,
    count_calls (trace w_ok) = 3%nat /\
    count_sleeps (trace w_ok) = 2%nat /\
    fetch_comments_with_retry (mkConfig 5 1 10) Comment
      (request_then_flaky 2 []) "v1" w0
    = (Ok [], w_ok).
Proof.
  eexists. split; [|split].
  3: { eapply (retry_until_success (mkConfig 5 1 10) Comment
                 (request_then_flaky 2 []) "v1" w0 2).
       - simpl; lia.
       - simpl; lia.
       - eapply failed_next; [reflexivity|].
         eapply failed_next; [reflexivity|]. apply failed_none.
       - reflexivity. }
  - reflexivity.
  - reflexivity.
Defined.

(** X2: with [RETRIES <= 0] the loop has no iteration: the wrapper never
    calls the operation, writes the exhaustion message alone and returns the
    empty list. *)
Theorem retry_without_attempts
        (cfg : config) (A : Type) (op : string -> M (list A))
        (vid : string) (w : world) :
  (RETRIES cfg <= 0)%Z ->
  fetch_comments_with_retry cfg A op vid w
  = (Ok [],
     add_events w [EvLog ERROR (fmt ["All "; str_of_Z (RETRIES cfg);
                                     " attempts failed for video "; vid])]).
Proof.
  intros Hr. unfold fetch_comments_with_retry, bind at 1, lift.
  unfold py_range, range_len. simpl.
  destruct (Z.ltb_spec 0 (RETRIES cfg)); [lia|]. reflexivity.
Qed.

Lemma retry_without_attempts_witness :
  fetch_comments_with_retry (mkConfig 0 5 10) Comment (flaky 0 []) "v1" w0
  = (Ok [],
     add_events w0 [EvLog ERROR (fmt ["All "; str_of_Z 0;
                                      " attempts failed for video "; "v1"])]).
Proof.
  apply (retry_without_attempts (mkConfig 0 5 10) Comment (flaky 0 []) "v1" w0).
  simpl. lia.
Defined.

(** X3: a negative [DELAY] defeats the wrapper.  The sleep of the handler
    raises [ValueError], which nothing catches: after the first failed
    attempt and its log line the wrapper raises, with no further attempt and
    no exhaustion message. *)
Theorem retry_negative_delay
        (cfg : config) (A : Type) (op : string -> M (list A))
        (vid : string) (w w1 : world) (e : exn) :
  (DELAY cfg < 0)%Z ->
  (0 < RETRIES cfg)%Z ->
  op vid (add_events w [EvCall vid]) = (Raise e, w1) ->
  fetch_comments_with_retry cfg A op vid w
  = (Raise (ValueError "sleep length must be non-negative"),
     add_events w1
       [EvLog ERROR (fmt ["Attempt "; str_of_Z 1; " failed for video "; vid;
                          ": "; exn_msg e])]).
Proof.
  intros Hd Hr Hop. unfold fetch_comments_with_retry, bind at 1, lift.
  rewrite py_range_unit by lia.
  destruct (Z.to_nat (RETRIES cfg)) as [|n] eqn:En; [lia|].
  unfold bind at 1. cbn [seq map retry_loop].
  unfold try_except, invoke, bind at 1 2. rewrite emit_eq, Hop.
  unfold bind at 1. rewrite log_eq. unfold bind at 1, time_sleep.
  destruct (Z.ltb_spec (DELAY cfg) 0); [|lia]. reflexivity.
Qed.

Lemma retry_negative_delay_witness :
  fetch_comments_with_retry (mkConfig 3 (-1) 10) Comment
    (fetch_comments_missing_argument Comment) "v1" w0
  = (Raise (ValueError "sleep length must be non-negative"),
     add_events (add_events w0 [EvCall "v1"])
       [EvLog ERROR
          (fmt ["Attempt "; str_of_Z 1; " failed for video "; "v1"; ": ";
                "fetch_comments() missing 1 required positional argument: 'video_id'"])]).
Proof.
  apply (retry_negative_delay (mkConfig 3 (-1) 10) Comment
           (fetch_comments_missing_argument Comment) "v1" w0
           (add_events w0 [EvCall "v1"])
           (TypeError
              "fetch_comments() missing 1 required positional argument: 'video_id'")).
  - simpl; lia.
  - simpl; lia.
  - reflexivity.
Defined.

Lemma py_range_from_zero (n : Z) :
  py_range 0 n 1 = Ok (map Z.of_nat (seq 0 (Z.to_nat n))).
Proof.
  destruct (Z_le_gt_dec 0 n) as [Hn|Hn]; [now apply py_range_unit|].
  unfold py_range, range_len. simpl.
  destruct (Z.ltb_spec 0 n); [lia|].
  replace (Z.to_nat n) with 0%nat by lia. reflexivity.
Qed.

Lemma retry_loop_same_error (cfg : config) (A : Type)
      (op : string -> M (list A)) (vid : string) (e : exn) :
  (0 <= DELAY cfg)%Z ->
  (forall w, op vid w = (Raise e, w)) ->
  forall (n s : nat) (w : world),
    retry_loop cfg A op vid (map Z.of_nat (seq s n)) w
    = (Ok None,
       add_events w (failed_attempts cfg vid (Z.of_nat s + 1) (repeat e n))).
Proof.
  intros Hd Hop n. induction n as [|n IH]; intros s w.
  - simpl. unfold ret. now rewrite add_events_nil.
  - cbn [seq map retry_loop repeat failed_attempts].
    unfold try_except, invoke, bind at 1 2. rewrite emit_eq, Hop.
    unfold bind. rewrite log_eq, time_sleep_eq by exact Hd.
    rewrite !add_events_app. cbn [app]. rewrite IH, add_events_app.
    replace (Z.of_nat (S s) + 1)%Z with (Z.of_nat s + 1 + 1)%Z by lia.
    reflexivity.
Qed.

Lemma requested_app (a b : list event) :
  requested (a ++ b) = requested a ++ requested b.
Proof.
  induction a as [|e a IH]; [reflexivity|].
  destruct e; simpl; rewrite IH; reflexivity.
Qed.

Lemma requested_gets (video_ids : list string) :
  requested (map EvGet video_ids) = video_ids.
Proof. induction video_ids; simpl; [|rewrite IHvideo_ids]; reflexivity. Qed.

Lemma requested_none (evs : list event) :
  (forall e, In e evs -> forall vid, e <> EvGet vid) -> requested evs = [].
Proof.
  induction evs as [|e evs IH]; intros H; [reflexivity|].
  destruct e as [v| | | | |]; simpl;
    try (apply IH; intros e' He'; apply H; now right).
  exfalso. apply (H (EvGet v) (or_introl eq_refl) v). reflexivity.
Qed.

Lemma requested_failed_attempts cfg vid ordinal es :
  requested (failed_attempts cfg vid ordinal es) = [].
Proof.
  revert ordinal. induction es as [|e es IH]; intros ordinal; [reflexivity|].
  simpl. apply IH.
Qed.

(** X4: the wrapper as the module wires it never reaches the network.  Its
    callee is called with one argument instead of two, so every attempt
    fails with the same [TypeError]: for a non-negative [DELAY] the wrapper
    logs [RETRIES] such attempts, sleeps after each, logs the exhaustion and
    returns the empty list, and not one request is issued. *)
Theorem retry_wrapper_never_requests
        (cfg : config) (vid : string) (w : world) :
  (0 <= DELAY cfg)%Z ->
  let e := TypeError
             "fetch_comments() missing 1 required positional argument: 'video_id'" in
  let run := fetch_comments_with_retry cfg Comment
               (fetch_comments_missing_argument Comment) vid w in
  run = (Ok [],
         add_events w
           (failed_attempts cfg vid 1 (repeat e (Z.to_nat (RETRIES cfg)))
            ++ [EvLog ERROR (fmt ["All "; str_of_Z (RETRIES cfg);
                                  " attempts failed for video "; vid])])) /\
  requested (trace (snd run)) = requested (trace w).
Proof.
  intros Hd e run.
  assert (Hrun : run
                 = (Ok [],
                    add_events w
                      (failed_attempts cfg vid 1
                         (repeat e (Z.to_nat (RETRIES cfg)))
                       ++ [EvLog ERROR (fmt ["All "; str_of_Z (RETRIES cfg);
                                             " attempts failed for video ";
                                             vid])]))).
  { subst run. unfold fetch_comments_with_retry, bind at 1, lift.
    rewrite py_range_from_zero. unfold bind at 1.
    rewrite (retry_loop_same_error cfg Comment
               (fetch_comments_missing_argument Comment) vid e Hd)
      by reflexivity.
    unfold bind, ret. rewrite log_eq, add_events_app. reflexivity. }
  split; [exact Hrun|]. rewrite Hrun. simpl.
  rewrite !requested_app, requested_failed_attempts. simpl.
  now rewrite app_nil_r.
Qed.

Lemma retry_wrapper_never_requests_witness :
  requested
    (trace (snd (fetch_comments_with_retry (mkConfig 4 2 10) Comment
                   (fetch_comments_missing_argument Comment) "v1" w0)))
  = [].
Proof.
  apply (retry_wrapper_never_requests (mkConfig 4 2 10) "v1" w0).
  simpl. lia.
Defined.

(* ================================================================== *)
(** ** More on the fetcher and the fan-in *)
(* ================================================================== *)

Lemma error_reason_raises (body : json_body) :
  (exists e, error_reason body = Raise e) <->
  exists o, error body = Some o /\ errors o = Some [].
Proof.
  unfold error_reason. split.
  - intros [e He]. destruct (error body) as [o|]; simpl in He.
    + exists o. split; [reflexivity|].
      destruct (errors o) as [[|d ds]|]; simpl in He; try discriminate.
      reflexivity.
    + discriminate.
  - intros [o [Ho He]]. rewrite Ho. simpl. rewrite He. simpl.
    eexists. reflexivity.
Qed.

Lemma error_reason_exn (body : json_body) (e : exn) :
  error_reason body = Raise e -> e = IndexError "list index out of range".
Proof.
  unfold error_reason.
  destruct (get (errors (get (error body) (mkErrorObject None None)))
                [mkErrorDetail None]); intros H; now inversion H.
Qed.

Lemma response_value_raise html_unescape vid r e :
  response_value html_unescape vid r = Raise e ->
  e = IndexError "list index out of range" /\ empty_errors r.
Proof.
  unfold response_value, empty_errors.
  destruct (Z.eqb_spec (status r) 403) as [Hs|Hs].
  - destruct (error_reason (json r)) as [reason|e'] eqn:E; [discriminate|].
    intros H. inversion H; subst e'. split; [now apply error_reason_exn in E|].
    split; [exact Hs|]. apply error_reason_raises. now exists e.
  - destruct (negb (status r =? 200)%Z); discriminate.
Qed.

Lemma empty_errors_value html_unescape vid r :
  empty_errors r ->
  response_value html_unescape vid r
  = Raise (IndexError "list index out of range") /\
  response_events vid r = [].
Proof.
  intros [Hs Ho]. apply error_reason_raises in Ho. destruct Ho as [e He].
  unfold response_value, response_events. rewrite Hs. simpl. rewrite He.
  apply error_reason_exn in He. now subst e.
Qed.

Lemma response_events_logs vid r e :
  In e (response_events vid r) -> is_log e = true.
Proof.
  unfold response_events, failure_line.
  destruct (status r =? 403)%Z.
  - destruct (error_reason (json r)) as [reason|x]; [|intros []].
    destruct (indicates_disabled reason (error_message (json r)));
      intros [<-|[]]; reflexivity.
  - destruct (negb (status r =? 200)%Z); [|intros []].
    intros [<-|[]]. reflexivity.
Qed.


Lemma gather_frame html_unescape pick fuel :
  forall k (pending : list (nat * (string * response))) w,
    exists evs,
      snd (gather html_unescape pick fuel k pending w) = add_events w evs /\
      Forall (fun e => is_log e = true) evs /\
      (forall e,
         fst (gather html_unescape pick fuel k pending w) = Raise e ->
         e = IndexError "list index out of range").
Proof.
  induction fuel as [|fuel IH]; intros k pending w.
  - exists []. simpl. rewrite add_events_nil.
    split; [reflexivity|]. split; [constructor|discriminate].
  - destruct (nth_error pending (pick k mod List.length pending))
      as [[i [vid r]]|] eqn:Ht.
    + rewrite (gather_step html_unescape pick fuel k pending w i vid r Ht).
      assert (Hlogs : Forall (fun e => is_log e = true) (response_events vid r)).
      { apply Forall_forall. intros e He.
        now apply (response_events_logs vid r). }
      destruct (response_value html_unescape vid r) as [l|e] eqn:Ev.
      * destruct (IH (S k) (remove_at (pick k mod List.length pending) pending)
                     (add_events w (response_events vid r)))
          as [evs [Hs [Hl He]]].
        destruct (gather html_unescape pick fuel (S k) _ _) as [[rest|e] w'];
          simpl in *; subst w'; rewrite add_events_app;
          exists (response_events vid r ++ evs);
          (split; [reflexivity|]); (split; [now apply Forall_app|]).
        -- discriminate.
        -- intros e' He'. inversion He'; subst e'. now apply He.
      * exists (response_events vid r). simpl.
        split; [reflexivity|]. split; [exact Hlogs|].
        intros e' He'. inversion He'; subst e'.
        now apply response_value_raise in Ev.
    + cbn [gather]. rewrite Ht. exists []. simpl. rewrite add_events_nil.
      split; [reflexivity|]. split; [constructor|discriminate].
Qed.

Lemma process_video_batch_frame html_unescape net pick video_ids w :
  exists evs,
    snd (process_video_batch html_unescape net pick video_ids w)
    = add_events w (map EvGet video_ids ++ evs) /\
    Forall (fun e => is_log e = true) evs /\
    (forall e,
       fst (process_video_batch html_unescape net pick video_ids w) = Raise e ->
       e = IndexError "list index out of range").
Proof.
  set (tasks := requests net (trace w) video_ids).
  destruct (gather_frame html_unescape pick (List.length tasks) 0
              (combine (seq 0 (List.length tasks)) tasks)
              (add_events w (map EvGet video_ids))) as [evs [Hs [Hl He]]].
  assert (Hrun : process_video_batch html_unescape net pick video_ids w
                 = match gather html_unescape pick (List.length tasks) 0
                                (combine (seq 0 (List.length tasks)) tasks)
                                (add_events w (map EvGet video_ids)) with
                   | (Ok done, w') =>
                       (Ok (flat_map
                              (fun result =>
                                 filter (fun _ => truthy result) result)
                              (map (result_of done)
                                   (seq 0 (List.length tasks)))), w')
                   | (Raise e, w') => (Raise e, w')
                   end).
  { unfold process_video_batch, bind at 1. rewrite issue_requests_eq.
    fold tasks. unfold bind at 1.
    destruct (gather html_unescape pick (List.length tasks) 0 _ _)
      as [[done|e] w']; reflexivity. }
  rewrite Hrun. clear Hrun.
  destruct (gather html_unescape pick (List.length tasks) 0 _ _)
    as [[done|e] w'];
    simpl in *; subst w'; rewrite add_events_app; exists evs;
    (split; [reflexivity|]); (split; [exact Hl|]).
  - intros e' He'. discriminate.
  - intros e' He'. inversion He'; subst e'. now apply He.
Qed.

(** X6: whatever the responses and the completion order, and whether it
    returns or raises, a batch first issues one request per identifier, in
    the order of the batch, and after them only writes log lines: it never
    sleeps, never calls the retry wrapper and never touches the store. *)
Theorem batch_only_requests_and_logs
        (html_unescape : string -> string)
        (net : list event -> string -> response)
        (pick : nat -> nat) (video_ids : list string) (w : world) :
  let w' := snd (process_video_batch html_unescape net pick video_ids w) in
  durable w' = durable w /\
  working w' = working w /\
  requested (trace w') = requested (trace w) ++ video_ids /\
  exists logs,
    trace w' = trace w ++ map EvGet video_ids ++ logs /\
    Forall (fun e => is_log e = true) logs.
Proof.
  intros w'. subst w'.
  destruct (process_video_batch_frame html_unescape net pick video_ids w)
    as [evs [-> [Hl _]]].
  simpl. repeat split.
  - rewrite !requested_app, requested_gets.
    rewrite (requested_none evs); [now rewrite app_nil_r|].
    intros e He vid ->. rewrite Forall_forall in Hl.
    specialize (Hl _ He). discriminate.
  - now exists evs.
Qed.

(** X7: one malformed payload aborts its batch.  When the response to some
    identifier of a batch is a 403 whose [errors] list is present and empty,
    the batch raises [IndexError] for every completion order, whatever the
    other identifiers returned, and so does the iteration of the loop, which
    stores nothing. *)
Theorem malformed_payload_aborts_batch
        (cfg : config) (html_unescape : string -> string)
        (net : list event -> string -> response) (sched : Z -> nat -> nat)
        (video_ids : list string) (i : Z) (w : world) :
  Exists (fun t => empty_errors (snd t))
         (requests net (trace w) (batch_at cfg video_ids i)) ->
  exists w',
    (forall pick,
       fst (process_video_batch html_unescape net pick
                                (batch_at cfg video_ids i) w)
       = Raise (IndexError "list index out of range")) /\
    main_iteration cfg html_unescape net sched video_ids i w
    = (Raise (IndexError "list index out of range"), w') /\
    durable w' = durable w /\
    working w' = working w.
Proof.
  intros Hex.
  assert (Hbad : Exists
                   (fun t => is_ok (response_value html_unescape
                                      (fst t) (snd t)) = false)
                   (requests net (trace w) (batch_at cfg video_ids i))).
  { eapply Exists_impl; [|exact Hex]. intros [vid r] He. simpl in *.
    destruct (empty_errors_value html_unescape vid r He) as [-> _].
    reflexivity. }
  assert (Hraise : forall pick,
             fst (process_video_batch html_unescape net pick
                                      (batch_at cfg video_ids i) w)
             = Raise (IndexError "list index out of range")).
  { intros pick.
    destruct (process_video_batch_raise html_unescape net pick _ w Hbad)
      as [e [evs Hrun]].
    destruct (process_video_batch_frame html_unescape net pick
                (batch_at cfg video_ids i) w) as [_ [_ [_ He]]].
    rewrite Hrun in *. simpl in *. now rewrite (He e eq_refl). }
  exists (snd (process_video_batch html_unescape net (sched i)
                                   (batch_at cfg video_ids i) w)).
  split; [exact Hraise|].
  destruct (process_video_batch_frame html_unescape net (sched i)
              (batch_at cfg video_ids i) w) as [evs [Hs _]].
  specialize (Hraise (sched i)).
  unfold main_iteration, bind.
  destruct (process_video_batch html_unescape net (sched i)
                                (batch_at cfg video_ids i) w) as [[l|e] w'].
  - discriminate.
  - simpl in *. subst w'. inversion Hraise. repeat split.
Qed.

Lemma malformed_payload_aborts_batch_witness :
  let net := fun (_ : list event) vid =>
               if String.eqb vid "v2" then malformed else one_comment in
  exists w',
    (forall pick,
       fst (process_video_batch unescape_basic net pick
              (batch_at (mkConfig 3 5 3) ["v1"; "v2"; "v3"] 0) w0)
       = Raise (IndexError "list index out of range")) /\
    main_iteration (mkConfig 3 5 3) unescape_basic net (fun _ k => k)
                   ["v1"; "v2"; "v3"] 0 w0
    = (Raise (IndexError "list index out of range"), w') /\
    durable w' = durable w0 /\
    working w' = working w0.
Proof.
  intros net.
  apply (malformed_payload_aborts_batch (mkConfig 3 5 3) unescape_basic net
           (fun _ k => k) ["v1"; "v2"; "v3"] 0 w0).
  apply Exists_cons_tl. apply Exists_cons_hd.
  split; [reflexivity|]. eexists. split; reflexivity.
Defined.

(** X8: the completion order only rearranges the log.  When no fetch of a
    batch raises, two runs of the batch under different completion orders
    return the same aggregate and leave the same tables, and the trace of
    the one is a rearrangement of the trace of the other. *)
Theorem completion_order_only_permutes_log
        (html_unescape : string -> string)
        (net : list event -> string -> response)
        (pick1 pick2 : nat -> nat) (video_ids : list string) (w : world) :
  Forall (fun t => is_ok (response_value html_unescape (fst t) (snd t)) = true)
         (requests net (trace w) video_ids) ->
  let run1 := process_video_batch html_unescape net pick1 video_ids w in
  let run2 := process_video_batch html_unescape net pick2 video_ids w in
  fst run1 = fst run2 /\
  Permutation (trace (snd run1)) (trace (snd run2)) /\
  durable (snd run1) = durable (snd run2) /\
  working (snd run1) = working (snd run2).
Proof.
  intros Hall run1 run2. subst run1 run2.
  destruct (process_video_batch_ok html_unescape net pick1 video_ids w Hall)
    as [evs1 [-> H1]].
  destruct (process_video_batch_ok html_unescape net pick2 video_ids w Hall)
    as [evs2 [-> H2]].
  simpl. repeat split.
  apply Permutation_app_head, Permutation_app_head.
  rewrite H1. now symmetry.
Qed.

Lemma completion_order_only_permutes_log_witness :
  let net := fun (_ : list event) vid =>
               if String.eqb vid "v2" then disabled else forbidden in
  let run1 := process_video_batch unescape_basic net (fun _ => 0%nat)
                                  ["v1"; "v2"; "v3"] w0 in
  let run2 := process_video_batch unescape_basic net (fun _ => 2%nat)
                                  ["v1"; "v2"; "v3"] w0 in
  fst run1 = fst run2 /\
  Permutation (trace (snd run1)) (trace (snd run2)) /\
  durable (snd run1) = durable (snd run2) /\
  working (snd run1) = working (snd run2).
Proof.
  intros net.
  apply (completion_order_only_permutes_log unescape_basic net
           (fun _ => 0%nat) (fun _ => 2%nat) ["v1"; "v2"; "v3"] w0).
  simpl. repeat constructor.
Defined.

(* ================================================================== *)
(** ** More on the store writer *)
(* ================================================================== *)

Lemma executemany_added (rows : list row) :
  forall t : table,
    exists added,
      executemany rows t = t ++ added /\
      NoDup (map row_id added) /\
      (forall r, In r added ->
                 In r rows /\ ~ In (row_id r) (map row_id t)).
Proof.
  induction rows as [|r rows IH]; intros t.
  - exists []. simpl. rewrite app_nil_r.
    split; [reflexivity|]. split; [constructor|intros r []].
  - simpl. destruct (in_dec string_dec (row_id r) (map row_id t)) as [Hin|Hnew].
    + rewrite (insert_present r t Hin).
      destruct (IH t) as [added [Heq [Hnd Hadded]]].
      exists added. split; [exact Heq|]. split; [exact Hnd|].
      intros r' Hr'. destruct (Hadded r' Hr'). split; [now right|assumption].
    + rewrite (insert_absent r t Hnew).
      destruct (IH (t ++ [r])) as [added [Heq [Hnd Hadded]]].
      exists (r :: added). split; [|split].
      * rewrite Heq. now rewrite <- app_assoc.
      * simpl. constructor; [|exact Hnd].
        intros Hin. apply in_map_iff in Hin. destruct Hin as [r' [Hid Hr']].
        destruct (Hadded r' Hr') as [_ Hfresh]. apply Hfresh.
        rewrite map_app. apply in_or_app. right. simpl. now left.
      * intros r' [<-|Hr']; [split; [now left|exact Hnew]|].
        destruct (Hadded r' Hr') as [Hrows Hfresh]. split; [now right|].
        intros Hin. apply Hfresh. rewrite map_app. apply in_or_app. now left.
Qed.

(** X9: the store writer only appends.  After [insert_comments_batch] the
    connection sees the rows of before, unchanged and in place, followed by
    rows of the batch with new, pairwise distinct ids, in the order of the
    batch; the durable table is not touched before the commit. *)
Theorem insert_comments_batch_appends (comments : list Comment) (w : world) :
  let w' := snd (insert_comments_batch comments w) in
  durable w' = durable w /\
  exists added,
    working w' = working w ++ added /\
    NoDup (map row_id added) /\
    (forall r, In r added ->
       (exists c, In c comments /\ r = row_of c) /\
       ~ In (row_id r) (map row_id (working w))).
Proof.
  intros w'. subst w'. unfold insert_comments_batch. simpl.
  split; [reflexivity|].
  destruct (executemany_added (map row_of comments) (working w))
    as [added [Heq [Hnd Hadded]]].
  exists added. split; [exact Heq|]. split; [exact Hnd|].
  intros r Hr. destruct (Hadded r Hr) as [Hrows Hfresh]. split; [|exact Hfresh].
  apply in_map_iff in Hrows. destruct Hrows as [c [Hc Hin]]. now exists c.
Qed.

Lemma insert_comments_batch_appends_witness :
  let c1 := top_level_comment unescape_basic "v1"
              (mkThreadItem "c1" (sample_snippet "one") None) in
  let c2 := top_level_comment unescape_basic "v1"
              (mkThreadItem "c2" (sample_snippet "two") None) in
  let w := mkWorld [] [row_of c1] [row_of c1] in
  exists added,
    working (snd (insert_comments_batch [c2; c1; c2] w)) = working w ++ added /\
    NoDup (map row_id added) /\
    (forall r, In r added ->
       (exists c, In c [c2; c1; c2] /\ r = row_of c) /\
       ~ In (row_id r) (map row_id (working w))).
Proof.
  intros c1 c2 w.
  apply (insert_comments_batch_appends [c2; c1; c2] w).
Defined.

(** X10: the store writer keeps the primary key: when no [id] occurs twice
    in the durable table nor in the connection's view of it, the same holds
    after the [if comments:] block, for an empty and for a non-empty
    aggregate, duplicates inside the aggregate included. *)
Theorem store_batch_keeps_primary_key
        (cfg : config) (comments : list Comment) (i : Z) (w : world) :
  pk_unique (durable w) ->
  pk_unique (working w) ->
  pk_unique (durable (snd (store_batch cfg comments i w))) /\
  pk_unique (working (snd (store_batch cfg comments i w))).
Proof.
  intros Hd Hw. unfold store_batch.
  destruct comments as [|c cs]; [split; assumption|].
  cbn [truthy]. unfold bind, insert_comments_batch, conn_commit, log. simpl.
  split; apply (executemany_pk_unique (row_of c :: map row_of cs)); exact Hw.
Qed.

Lemma store_batch_keeps_primary_key_witness :
  let c1 := top_level_comment unescape_basic "v1"
              (mkThreadItem "c1" (sample_snippet "one") None) in
  pk_unique (durable (snd (store_batch (mkConfig 3 5 2) [c1; c1] 0 w0))) /\
  pk_unique (working (snd (store_batch (mkConfig 3 5 2) [c1; c1] 0 w0))).
Proof.
  intros c1.
  apply (store_batch_keeps_primary_key (mkConfig 3 5 2) [c1; c1] 0 w0);
    constructor.
Defined.

Lemma find_id_app (i : string) (t t' : table) :
  find_id i (t ++ t')
  = match find_id i t with Some r => Some r | None => find_id i t' end.
Proof.
  unfold find_id. induction t as [|r t IH]; [reflexivity|].
  simpl. destruct (String.eqb (row_id r) i); [reflexivity|exact IH].
Qed.

Lemma find_id_none (i : string) (t : table) :
  find_id i t = None <-> ~ In i (map row_id t).
Proof.
  unfold find_id. induction t as [|r t IH]; simpl.
  - split; [intros _ []|reflexivity].
  - destruct (String.eqb_spec (row_id r) i) as [Heq|Hne].
    + split; [discriminate|]. intros H. exfalso. apply H. now left.
    + rewrite IH. split.
      * intros H [Heq|Hin]; [contradiction|auto].
      * intros H Hin. apply H. now right.
Qed.

Lemma find_id_insert (i : string) (r : row) (t : table) :
  find_id i (insert_or_ignore r t)
  = match find_id i t with
    | Some x => Some x
    | None => if String.eqb (row_id r) i then Some r else None
    end.
Proof.
  destruct (in_dec string_dec (row_id r) (map row_id t)) as [Hin|Hnew].
  - rewrite (insert_present r t Hin).
    destruct (find_id i t) as [x|] eqn:E; [reflexivity|].
    destruct (String.eqb_spec (row_id r) i) as [Heq|Hne]; [|reflexivity].
    apply find_id_none in E. subst i. contradiction.
  - rewrite (insert_absent r t Hnew), find_id_app.
    destruct (find_id i t); [reflexivity|].
    unfold find_id. simpl. now destruct (String.eqb (row_id r) i).
Qed.

Lemma find_id_executemany (i : string) (rows : list row) :
  forall t : table,
    find_id i (executemany rows t)
    = match find_id i t with Some x => Some x | None => find_id i rows end.
Proof.
  induction rows as [|r rows IH]; intros t.
  - simpl. now destruct (find_id i t).
  - simpl. rewrite IH, find_id_insert.
    destruct (find_id i t); [reflexivity|].
    unfold find_id at 2. simpl.
    now destruct (String.eqb (row_id r) i).
Qed.

(** X11: looking a row up after a batch was inserted.  For every [id], the
    row the connection sees after [insert_comments_batch] is the row it saw
    before when there was one, and otherwise the first row of the batch with
    that [id]: the first writer wins, across batches and inside one. *)
Theorem lookup_after_insert (i : string) (comments : list Comment) (w : world) :
  find_id i (working (snd (insert_comments_batch comments w)))
  = match find_id i (working w) with
    | Some r => Some r
    | None => find_id i (map row_of comments)
    end.
Proof. unfold insert_comments_batch. simpl. apply find_id_executemany. Qed.

(* ================================================================== *)
(** ** The whole run *)
(* ================================================================== *)

Lemma in_firstn_skipn {A} (x : A) (n m : nat) (l : list A) :
  In x (firstn n (skipn m l)) -> In x l.
Proof.
  intros H.
  rewrite <- (firstn_skipn m l). apply in_or_app. right.
  rewrite <- (firstn_skipn n (skipn m l)). apply in_or_app. now left.
Qed.

Lemma batch_at_incl cfg (video_ids : list string) (i : Z) (vid : string) :
  In vid (batch_at cfg video_ids i) -> In vid video_ids.
Proof. unfold batch_at, py_slice. apply in_firstn_skipn. Qed.

Lemma requests_forall net (P : string * response -> Prop) :
  (forall tr vid, P (vid, net tr vid)) ->
  forall video_ids tr, Forall P (requests net tr video_ids).
Proof.
  intros H video_ids. induction video_ids as [|vid rest IH]; intros tr; simpl;
    constructor; auto.
Qed.

Lemma for_each_inv {A} (Inv : world -> Prop) (body : A -> M unit) :
  (forall x w, Inv w -> Inv (snd (body x w))) ->
  forall xs w, Inv w -> Inv (snd (for_each xs body w)).
Proof.
  intros Hbody xs. induction xs as [|x xs IH]; intros w Hw; [exact Hw|].
  cbn [for_each]. unfold bind. specialize (Hbody x w Hw).
  destruct (body x w) as [[u|e] w1]; simpl in *; [now apply IH|exact Hbody].
Qed.

Lemma main_iteration_inv cfg html_unescape net sched video_ids start i w :
  store_inv video_ids start w ->
  store_inv video_ids start
    (snd (main_iteration cfg html_unescape net sched video_ids i w)).
Proof.
  intros [Hclean [Hpk [added [Hadd Hrows]]]].
  unfold main_iteration, bind.
  destruct (process_video_batch_frame html_unescape net (sched i)
              (batch_at cfg video_ids i) w) as [evs [Hs _]].
  destruct (process_video_batch html_unescape net (sched i)
                                (batch_at cfg video_ids i) w)
    as [[comments|e] w1] eqn:Hrun; simpl in Hs; subst w1.
  - unfold store_batch. destruct comments as [|c cs].
    + simpl. unfold store_inv. simpl. eauto.
    + cbn [truthy]. unfold bind, insert_comments_batch, conn_commit, log.
      simpl. unfold store_inv. simpl.
      destruct (executemany_added (row_of c :: map row_of cs) (working w))
        as [more [Heq [_ Hmore]]].
      simpl in Heq. rewrite Heq. split; [reflexivity|]. split.
      * rewrite <- Heq.
        apply (executemany_pk_unique (row_of c :: map row_of cs)).
        now rewrite Hclean.
      * exists (added ++ more). split.
        -- now rewrite Hclean, Hadd, app_assoc.
        -- apply Forall_app. split; [exact Hrows|].
           apply Forall_forall. intros r Hr.
           destruct (Hmore r Hr) as [Hin _].
           change (row_of c :: map row_of cs) with (map row_of (c :: cs)) in Hin.
           apply in_map_iff in Hin. destruct Hin as [c' [<- Hc']].
           exists c'. split; [reflexivity|].
           apply process_video_batch_comments in Hrun.
           destruct Hrun as [Hfrom _].
           destruct (Hfrom c' Hc') as [t [l0 [Ht [Hv Hl0]]]].
           apply response_value_comments in Hv.
           rewrite Forall_forall in Hv.
           destruct (Hv c' Hl0) as [Hvid [Hreply _]].
           split; [exact Hreply|]. rewrite Hvid.
           apply (batch_at_incl cfg video_ids i).
           rewrite <- (requests_ids net (trace w) (batch_at cfg video_ids i)).
           now apply in_map.
  - unfold store_inv. simpl. eauto.
Qed.

(** X12: the run leaves a consistent store, however it ends.  From a fresh
    connection on a table with unique ids, whether [main] returns or raises:
    no transaction is left pending, ids are still unique, the rows of before
    are untouched and in place, and every row added is the tuple of a
    top-level comment fetched for one of the given identifiers. *)
Theorem main_leaves_consistent_store
        (cfg : config) (html_unescape : string -> string)
        (net : list event -> string -> response) (sched : Z -> nat -> nat)
        (video_ids : list string) (w : world) :
  working w = durable w ->
  pk_unique (durable w) ->
  let w' := snd (main cfg html_unescape net sched video_ids w) in
  working w' = durable w' /\
  pk_unique (durable w') /\
  exists added,
    durable w' = durable w ++ added /\
    Forall (fun r => exists c, r = row_of c /\ is_reply c = false /\
                               In (video_id c) video_ids) added.
Proof.
  intros Hclean Hpk w'. change (store_inv video_ids w w'). subst w'.
  assert (H0 : store_inv video_ids w w).
  { unfold store_inv. split; [exact Hclean|]. split; [exact Hpk|].
    exists []. rewrite app_nil_r. split; [reflexivity|constructor]. }
  unfold main, bind at 1, with_connection, bind at 1, lift.
  destruct (py_range 0 (Z.of_nat (List.length video_ids)) (BATCH_SIZE cfg))
    as [starts|e].
  - pose proof (for_each_inv (store_inv video_ids w)
                  (main_iteration cfg html_unescape net sched video_ids)
                  (fun x w1 => main_iteration_inv cfg html_unescape net sched
                                 video_ids w x w1)
                  starts w H0) as Hinv.
    destruct (for_each starts
                (main_iteration cfg html_unescape net sched video_ids) w)
      as [[u|e] w1]; simpl in Hinv;
      destruct Hinv as [Hc1 [Hpk1 [added [Hadd Hrows]]]];
      unfold store_inv; simpl.
    + split; [reflexivity|]. rewrite Hc1. split; [exact Hpk1|].
      now exists added.
    + split; [reflexivity|]. split; [exact Hpk1|]. now exists added.
  - unfold store_inv. simpl. split; [reflexivity|]. split; [exact Hpk|].
    exists []. rewrite app_nil_r. split; [reflexivity|constructor].
Qed.

Lemma main_leaves_consistent_store_witness :
  let net := fun (_ : list event) vid =>
               if String.eqb vid "v2" then malformed else one_comment in
  let w' := snd (main (mkConfig 3 5 1) unescape_basic net (fun _ k => k)
                      ["v1"; "v2"; "v3"] w0) in
  working w' = durable w' /\
  pk_unique (durable w') /\
  exists added,
    durable w' = durable w0 ++ added /\
    Forall (fun r => exists c, r = row_of c /\ is_reply c = false /\
                               In (video_id c) ["v1"; "v2"; "v3"]) added.
Proof.
  intros net.
  apply (main_leaves_consistent_store (mkConfig 3 5 1) unescape_basic net
           (fun _ k => k) ["v1"; "v2"; "v3"] w0).
  - reflexivity.
  - constructor.
Defined.

Lemma batch_starts_cover cfg (video_ids : list string) :
  (0 < BATCH_SIZE cfg)%Z ->
  exists starts,
    py_range 0 (Z.of_nat (List.length video_ids)) (BATCH_SIZE cfg) = Ok starts /\
    List.concat (map (batch_at cfg video_ids) starts) = video_ids.
Proof.
  intros HB.
  set (N := Z.of_nat (List.length video_ids)).
  set (B := BATCH_SIZE cfg) in *.
  destruct (range_len_batches N B ltac:(lia) HB) as [Hceil [Hcover _]].
  unfold py_range. fold N. destruct (Z.eqb_spec B 0); [lia|].
  eexists. split; [reflexivity|].
  rewrite map_map.
  rewrite (map_ext _ (fun k => firstn (Z.to_nat B)
                                      (skipn (k * Z.to_nat B) video_ids))).
  - rewrite concat_chunks. apply firstn_all2.
    apply Nat2Z.inj_le. rewrite Nat2Z.inj_mul, !Z2Nat.id; [fold N; lia|lia|].
    rewrite Hceil. apply Z.div_pos; lia.
  - intros k. unfold batch_at. fold B. now apply py_slice_chunk.
Qed.

Lemma well_formed_is_ok html_unescape vid r :
  ~ empty_errors r -> is_ok (response_value html_unescape vid r) = true.
Proof.
  intros H. destruct (response_value html_unescape vid r) as [l|e] eqn:E;
    [reflexivity|].
  apply response_value_raise in E. destruct E. contradiction.
Qed.

Lemma main_iteration_ok cfg html_unescape net sched video_ids i w :
  (forall tr vid, ~ empty_errors (net tr vid)) ->
  exists w1 evs,
    main_iteration cfg html_unescape net sched video_ids i w = (Ok tt, w1) /\
    trace w1 = trace w ++ evs /\
    requested evs = batch_at cfg video_ids i.
Proof.
  intros Hnet.
  destruct (process_video_batch_ok html_unescape net (sched i)
              (batch_at cfg video_ids i) w) as [logs [Hrun Hperm]].
  { apply requests_forall. intros tr vid. simpl.
    now apply well_formed_is_ok. }
  assert (Hlogs : requested logs = []).
  { apply requested_none. intros e He vid ->.
    apply (Permutation_in _ Hperm) in He. apply in_flat_map in He.
    destruct He as [t [_ He]]. apply response_events_logs in He.
    discriminate. }
  unfold main_iteration, bind. rewrite Hrun. unfold store_batch.
  destruct (flat_map _ _) as [|c cs].
  - eexists. eexists. split; [reflexivity|]. split; [reflexivity|].
    now rewrite requested_app, requested_gets, Hlogs, app_nil_r.
  - cbn [truthy]. unfold bind, insert_comments_batch, conn_commit, log, emit.
    simpl. eexists.
    exists ((map EvGet (batch_at cfg video_ids i) ++ logs)
            ++ [EvExecuteMany (row_of c :: map row_of cs); EvCommit;
                EvLog INFO (inserted_msg cfg (c :: cs) i)]).
    split; [reflexivity|]. split.
    + rewrite <- !app_assoc. reflexivity.
    + rewrite !requested_app, requested_gets, Hlogs. simpl.
      now rewrite !app_nil_r.
Qed.

Lemma for_each_iterations_ok cfg html_unescape net sched video_ids :
  (forall tr vid, ~ empty_errors (net tr vid)) ->
  forall starts w,
    exists w1 evs,
      for_each starts (main_iteration cfg html_unescape net sched video_ids) w
      = (Ok tt, w1) /\
      trace w1 = trace w ++ evs /\
      requested evs = List.concat (map (batch_at cfg video_ids) starts).
Proof.
  intros Hnet starts. induction starts as [|i starts IH]; intros w.
  - exists w, []. simpl. unfold ret. now rewrite app_nil_r.
  - destruct (main_iteration_ok cfg html_unescape net sched video_ids i w Hnet)
      as [w1 [evs1 [Hrun1 [Ht1 Hr1]]]].
    destruct (IH w1) as [w2 [evs2 [Hrun2 [Ht2 Hr2]]]].
    exists w2, (evs1 ++ evs2). cbn [for_each]. unfold bind.
    rewrite Hrun1, Hrun2. split; [reflexivity|]. split.
    + now rewrite Ht2, Ht1, app_assoc.
    + now rewrite requested_app, Hr1, Hr2.
Qed.

(** X13: a run without malformed payloads requests every identifier once.
    For a positive batch size, when no response is a 403 with an empty
    [errors] list, [main] returns, the identifiers it requested are exactly
    the given ones, each occurrence once and in the given order, and the
    last thing it does is to log that all comments were processed. *)
Theorem main_requests_each_identifier_once
        (cfg : config) (html_unescape : string -> string)
        (net : list event -> string -> response) (sched : Z -> nat -> nat)
        (video_ids : list string) (w : world) :
  (0 < BATCH_SIZE cfg)%Z ->
  (forall tr vid, ~ empty_errors (net tr vid)) ->
  exists w' evs,
    main cfg html_unescape net sched video_ids w = (Ok tt, w') /\
    trace w'
    = trace w ++ evs ++ [EvLog INFO "All comments processed successfully."] /\
    requested evs = video_ids.
Proof.
  intros HB Hnet.
  destruct (batch_starts_cover cfg video_ids HB) as [starts [Hrange Hcover]].
  destruct (for_each_iterations_ok cfg html_unescape net sched video_ids Hnet
              starts w) as [w1 [evs [Hrun [Ht Hr]]]].
  eexists. exists evs.
  unfold main, bind at 1, with_connection, bind at 1, lift.
  rewrite Hrange, Hrun. unfold log, emit. simpl.
  split; [reflexivity|]. split.
  - now rewrite Ht, app_assoc.
  - now rewrite Hr, Hcover.
Qed.

Lemma main_requests_each_identifier_once_witness :
  let net := fun (_ : list event) vid =>
               if String.eqb vid "v2" then disabled else one_comment in
  exists w' evs,
    main (mkConfig 3 5 2) unescape_basic net (fun _ k => k)
         ["v1"; "v2"; "v3"] w0 = (Ok tt, w') /\
    trace w'
    = trace w0 ++ evs ++ [EvLog INFO "All comments processed successfully."] /\
    requested evs = ["v1"; "v2"; "v3"].
Proof.
  intros net.
  apply (main_requests_each_identifier_once (mkConfig 3 5 2) unescape_basic
           net (fun _ k => k) ["v1"; "v2"; "v3"] w0).
  - simpl; lia.
  - intros tr vid [Hs [o [Ho He]]]. unfold net in *.
    destruct (String.eqb vid "v2"); simpl in *.
    + inversion Ho; subst o. discriminate.
    + discriminate.
Defined.

(** X14: a batch size of zero stops the run before it starts: the range of
    the loop raises [ValueError], no request is issued, nothing is logged,
    and the connection is left without a pending transaction. *)
Theorem main_zero_batch_size
        (cfg : config) (html_unescape : string -> string)
        (net : list event -> string -> response) (sched : Z -> nat -> nat)
        (video_ids : list string) (w : world) :
  BATCH_SIZE cfg = 0%Z ->
  main cfg html_unescape net sched video_ids w
  = (Raise (ValueError "range() arg 3 must not be zero"),
     mkWorld (trace w) (durable w) (durable w)).
Proof.
  intros HB. unfold main, bind at 1, with_connection, bind at 1, lift.
  unfold py_range. rewrite HB. reflexivity.
Qed.

Lemma main_zero_batch_size_witness :
  main (mkConfig 3 5 0) unescape_basic (fun _ _ => one_comment) (fun _ k => k)
       ["v1"; "v2"] w0
  = (Raise (ValueError "range() arg 3 must not be zero"),
     mkWorld (trace w0) (durable w0) (durable w0)).
Proof.
  apply (main_zero_batch_size (mkConfig 3 5 0) unescape_basic
           (fun _ _ => one_comment) (fun _ k => k) ["v1"; "v2"] w0).
  reflexivity.
Defined.

(** X15: a run with nothing to do reports success.  With a negative batch
    size, whatever the identifiers, and with no identifier at all, the loop
    has no iteration: no request is issued and [main] only logs that all
    comments were processed. *)
Theorem main_without_batches
        (cfg : config) (html_unescape : string -> string)
        (net : list event -> string -> response) (sched : Z -> nat -> nat)
        (video_ids : list string) (w : world) :
  (BATCH_SIZE cfg < 0)%Z \/ ((0 < BATCH_SIZE cfg)%Z /\ video_ids = []) ->
  main cfg html_unescape net sched video_ids w
  = (Ok tt,
     mkWorld (trace w ++ [EvLog INFO "All comments processed successfully."])
             (working w) (working w)).
Proof.
  intros H. unfold main, bind at 1, with_connection, bind at 1, lift.
  assert (Hrange : py_range 0 (Z.of_nat (List.length video_ids))
                            (BATCH_SIZE cfg) = Ok []).
  { unfold py_range, range_len. destruct H as [Hneg|[Hpos ->]].
    - destruct (Z.eqb_spec (BATCH_SIZE cfg) 0); [lia|].
      destruct (Z.ltb_spec 0 (BATCH_SIZE cfg)); [lia|].
      destruct (Z.ltb_spec (Z.of_nat (List.length video_ids)) 0); [lia|].
      reflexivity.
    - destruct (Z.eqb_spec (BATCH_SIZE cfg) 0); [lia|].
      destruct (Z.ltb_spec 0 (BATCH_SIZE cfg)); [|lia]. reflexivity. }
  rewrite Hrange. reflexivity.
Qed.

Lemma main_without_batches_witness :
  main (mkConfig 3 5 (-4)) unescape_basic (fun _ _ => one_comment)
       (fun _ k => k) ["v1"; "v2"] w0
  = (Ok tt,
     mkWorld (trace w0 ++ [EvLog INFO "All comments processed successfully."])
             (working w0) (working w0)).
Proof.
  apply (main_without_batches (mkConfig 3 5 (-4)) unescape_basic
           (fun _ _ => one_comment) (fun _ k => k) ["v1"; "v2"] w0).
  left. simpl. lia.
Defined.

Lemma requests_answer net (answer : string -> response) :
  (forall tr vid, net tr vid = answer vid) ->
  forall video_ids tr,
    requests net tr video_ids = map (fun vid => (vid, answer vid)) video_ids.
Proof.
  intros Hdet video_ids. induction video_ids as [|vid rest IH]; intros tr;
    [reflexivity|].
  simpl. now rewrite Hdet, IH.
Qed.

Lemma fetched_rows_app html_unescape answer (a b : list string) :
  fetched_rows html_unescape answer (a ++ b)
  = fetched_rows html_unescape answer a ++ fetched_rows html_unescape answer b.
Proof. unfold fetched_rows. now rewrite flat_map_app, map_app. Qed.

Lemma executemany_app (a b : list row) (t : table) :
  executemany (a ++ b) t = executemany b (executemany a t).
Proof. unfold executemany. apply fold_left_app. Qed.

Lemma main_iteration_stores cfg html_unescape net sched answer video_ids i w :
  (forall tr vid, net tr vid = answer vid) ->
  (forall vid, ~ empty_errors (answer vid)) ->
  working w = durable w ->
  exists w1,
    main_iteration cfg html_unescape net sched video_ids i w = (Ok tt, w1) /\
    working w1 = durable w1 /\
    durable w1
    = executemany (fetched_rows html_unescape answer (batch_at cfg video_ids i))
                  (durable w).
Proof.
  intros Hdet Hnet Hclean.
  destruct (process_video_batch_ok html_unescape net (sched i)
              (batch_at cfg video_ids i) w) as [logs [Hrun _]].
  { apply requests_forall. intros tr vid. simpl. rewrite Hdet.
    now apply well_formed_is_ok. }
  rewrite (requests_answer net answer Hdet) in Hrun.
  rewrite flat_map_concat_map, map_map, <- flat_map_concat_map in Hrun.
  simpl in Hrun.
  unfold main_iteration, bind. rewrite Hrun. unfold fetched_rows, store_batch.
  destruct (flat_map _ (batch_at cfg video_ids i)) as [|c cs].
  - eexists. split; [reflexivity|]. simpl. split; [exact Hclean|reflexivity].
  - cbn [truthy]. unfold bind, insert_comments_batch, conn_commit, log, emit.
    simpl. eexists. split; [reflexivity|]. simpl.
    split; [reflexivity|]. now rewrite Hclean.
Qed.

Lemma for_each_stores cfg html_unescape net sched answer video_ids :
  (forall tr vid, net tr vid = answer vid) ->
  (forall vid, ~ empty_errors (answer vid)) ->
  forall starts w,
    working w = durable w ->
    exists w1,
      for_each starts (main_iteration cfg html_unescape net sched video_ids) w
      = (Ok tt, w1) /\
      working w1 = durable w1 /\
      durable w1
      = executemany
          (fetched_rows html_unescape answer
             (List.concat (map (batch_at cfg video_ids) starts)))
          (durable w).
Proof.
  intros Hdet Hnet starts. induction starts as [|i starts IH]; intros w Hclean.
  - exists w. repeat split. exact Hclean.
  - destruct (main_iteration_stores cfg html_unescape net sched answer
                video_ids i w Hdet Hnet Hclean) as [w1 [Hrun1 [Hc1 Hd1]]].
    destruct (IH w1 Hc1) as [w2 [Hrun2 [Hc2 Hd2]]].
    exists w2. cbn [for_each]. unfold bind. rewrite Hrun1, Hrun2.
    split; [reflexivity|]. split; [exact Hc2|].
    cbn [map List.concat]. now rewrite fetched_rows_app, executemany_app, <- Hd1.
Qed.

Lemma main_stores cfg html_unescape net sched answer video_ids w :
  (0 < BATCH_SIZE cfg)%Z ->
  (forall tr vid, net tr vid = answer vid) ->
  (forall vid, ~ empty_errors (answer vid)) ->
  working w = durable w ->
  exists w',
    main cfg html_unescape net sched video_ids w = (Ok tt, w') /\
    working w' = durable w' /\
    durable w'
    = executemany (fetched_rows html_unescape answer video_ids) (durable w).
Proof.
  intros HB Hdet Hnet Hclean.
  destruct (batch_starts_cover cfg video_ids HB) as [starts [Hrange Hcover]].
  destruct (for_each_stores cfg html_unescape net sched answer video_ids
              Hdet Hnet starts w Hclean) as [w1 [Hrun [Hc1 Hd1]]].
  eexists.
  unfold main, bind at 1, with_connection, bind at 1, lift.
  rewrite Hrange, Hrun. unfold log, emit. simpl.
  split; [reflexivity|]. split; [reflexivity|].
  now rewrite Hc1, Hd1, Hcover.
Qed.

(** X16: batching does not change what is stored.  For a positive batch
    size, answers of the API that depend on the video only and none of them
    malformed, and a fresh connection, [main] returns and the durable table
    is the table of before with one insert-if-absent pass over the tuples of
    all fetched comments, taken in the order of the identifiers: the same
    table for every batch size and every completion order. *)
Theorem main_stores_all_fetched
        (cfg : config) (html_unescape : string -> string)
        (net : list event -> string -> response) (sched : Z -> nat -> nat)
        (answer : string -> response) (video_ids : list string) (w : world) :
  (0 < BATCH_SIZE cfg)%Z ->
  (forall tr vid, net tr vid = answer vid) ->
  (forall vid, ~ empty_errors (answer vid)) ->
  working w = durable w ->
  exists w',
    main cfg html_unescape net sched video_ids w = (Ok tt, w') /\
    working w' = durable w' /\
    durable w'
    = executemany (fetched_rows html_unescape answer video_ids) (durable w).
Proof. apply main_stores. Qed.

Lemma main_stores_all_fetched_witness :
  let answer := fun vid => if String.eqb vid "v2" then disabled
                           else one_comment in
  exists w',
    main (mkConfig 3 5 2) unescape_basic (fun _ => answer) (fun _ k => k)
         ["v1"; "v2"; "v3"] w0 = (Ok tt, w') /\
    working w' = durable w' /\
    durable w'
    = executemany (fetched_rows unescape_basic answer ["v1"; "v2"; "v3"])
                  (durable w0).
Proof.
  intros answer.
  apply (main_stores_all_fetched (mkConfig 3 5 2) unescape_basic
           (fun _ => answer) (fun _ k => k) answer ["v1"; "v2"; "v3"] w0).
  - simpl; lia.
  - reflexivity.
  - intros vid [Hs [o [Ho He]]]. unfold answer in *.
    destruct (String.eqb vid "v2"); simpl in *.
    + inversion Ho; subst o. discriminate.
    + discriminate.
  - reflexivity.
Defined.

(** X17: running the program again changes nothing.  Under the conditions
    of X16, a second run of [main] over the same identifiers, started where
    the first one ended and possibly with another batch size and other
    completion orders, returns and leaves the durable table of the first
    run. *)
Theorem main_rerun_changes_nothing
        (cfg cfg2 : config) (html_unescape : string -> string)
        (net : list event -> string -> response) (sched sched2 : Z -> nat -> nat)
        (answer : string -> response) (video_ids : list string) (w : world) :
  (0 < BATCH_SIZE cfg)%Z ->
  (0 < BATCH_SIZE cfg2)%Z ->
  (forall tr vid, net tr vid = answer vid) ->
  (forall vid, ~ empty_errors (answer vid)) ->
  working w = durable w ->
  let first := main cfg html_unescape net sched video_ids w in
  let second := main cfg2 html_unescape net sched2 video_ids (snd first) in
  fst second = Ok tt /\
  durable (snd second) = durable (snd first).
Proof.
  intros HB HB2 Hdet Hnet Hclean first second. subst first second.
  destruct (main_stores cfg html_unescape net sched answer video_ids w
              HB Hdet Hnet Hclean) as [w1 [Hrun1 [Hc1 Hd1]]].
  rewrite Hrun1. simpl.
  destruct (main_stores cfg2 html_unescape net sched2 answer video_ids w1
              HB2 Hdet Hnet Hc1) as [w2 [Hrun2 [Hc2 Hd2]]].
  rewrite Hrun2. simpl. split; [reflexivity|].
  rewrite Hd2, Hd1. apply executemany_idempotent.
Qed.

Lemma main_rerun_changes_nothing_witness :
  let answer := fun vid => if String.eqb vid "v2" then disabled
                           else one_comment in
  let first := main (mkConfig 3 5 2) unescape_basic (fun _ => answer)
                    (fun _ k => k) ["v1"; "v2"; "v3"] w0 in
  let second := main (mkConfig 3 5 1) unescape_basic (fun _ => answer)
                     (fun _ _ => 0%nat) ["v1"; "v2"; "v3"] (snd first) in
  fst second = Ok tt /\
  durable (snd second) = durable (snd first).
Proof.
  intros answer.
  apply (main_rerun_changes_nothing (mkConfig 3 5 2) (mkConfig 3 5 1)
           unescape_basic (fun _ => answer) (fun _ k => k) (fun _ _ => 0%nat)
           answer ["v1"; "v2"; "v3"] w0).
  - simpl; lia.
  - simpl; lia.
  - reflexivity.
  - intros vid [Hs [o [Ho He]]]. unfold answer in *.
    destruct (String.eqb vid "v2"); simpl in *.
    + inversion Ho; subst o. discriminate.
    + discriminate.
  - reflexivity.
Defined.

(** X18: the completion line counts fetched comments, not inserted rows.
    When every comment of a non-empty aggregate has its [id] already stored,
    the [if comments:] block runs the statement and the commit, adds no row,
    and still logs "Inserted n comments" with [n] the size of the
    aggregate. *)
Theorem inserted_line_counts_fetched
        (cfg : config) (comments : list Comment) (i : Z) (w : world) :
  comments <> [] ->
  (forall c, In c comments -> In (id c) (map row_id (working w))) ->
  store_batch cfg comments i w
  = (Ok tt,
     mkWorld
       (trace w
        ++ [EvExecuteMany (map row_of comments); EvCommit;
            EvLog INFO
              (fmt ["Inserted ";
                    str_of_Z (Z.of_nat (List.length comments));
                    " comments for batch ";
                    str_of_Z (i / BATCH_SIZE cfg + 1)])])
       (working w) (working w)).
Proof.
  intros Hne Hstored. unfold store_batch.
  destruct comments as [|c cs]; [contradiction|].
  cbn [truthy]. unfold bind, insert_comments_batch, conn_commit, log, emit.
  cbn [trace durable working].
  assert (Hsame : executemany (map row_of (c :: cs)) (working w) = working w).
  { apply executemany_present. intros r Hr. apply in_map_iff in Hr.
    destruct Hr as [c' [<- Hc']]. now apply Hstored. }
  rewrite Hsame, <- !app_assoc. reflexivity.
Qed.

Lemma inserted_line_counts_fetched_witness :
  let c1 := top_level_comment unescape_basic "v1"
              (mkThreadItem "c1" (sample_snippet "one") None) in
  let w := mkWorld [] [row_of c1] [row_of c1] in
  store_batch (mkConfig 3 5 2) [c1; c1] 4 w
  = (Ok tt,
     mkWorld
       (trace w
        ++ [EvExecuteMany (map row_of [c1; c1]); EvCommit;
            EvLog INFO
              (fmt ["Inserted "; str_of_Z (Z.of_nat (List.length [c1; c1]));
                    " comments for batch "; str_of_Z (4 / 2 + 1)])])
       (working w) (working w)).
Proof.
  intros c1 w.
  apply (inserted_line_counts_fetched (mkConfig 3 5 2) [c1; c1] 4 w).
  - discriminate.
  - intros c [<-|[<-|[]]]; simpl; now left.
Defined.
